(** * pwndbg / Binary Ninja integration: a shallow embedding

    The development follows three source files:
    - [binja_script.py]: the Binary Ninja side plugin (tag synchronizer,
      query layer, XML-RPC server life cycle);
    - [pwndbg/gdblib/hooks.py]: the event handlers of the debugger side and
      the wiring of the cache trigger groups;
    - [pwndbg/commands/binja.py]: the callers of the address translation.

    Python integers are unbounded, so addresses are [Z]. Python dictionaries
    are [gmap]s, Python lists are [list]s, and an exception is the [Raise]
    branch of [result]. *)

From Stdlib Require Import ZArith Lia Ascii String.
From stdpp Require Import base list strings gmap sorting.

Local Open Scope Z_scope.

(** ** Exceptions *)

Inductive exn : Type :=
  | AttributeError   (* attribute access on [None] *)
  | OSError.         (* the listening socket could not be bound *)

Inductive result (A : Type) : Type :=
  | Ok (a : A)
  | Raise (e : exn).
Arguments Ok {A} a.
Arguments Raise {A} e.

(** [result] is a monad; [x ← r; k] runs [k] unless [r] raised. *)
Global Instance result_ret : MRet result := λ A a, Ok a.
Global Instance result_bind : MBind result := λ A B k r,
  match r with
  | Ok a => k a
  | Raise e => Raise e
  end.

(** ** The Binary Ninja data model, as far as the plugin reads it *)

(** [binaryninja.types.Type]: the plugin only distinguishes
    [PointerType] (with its [target]) from every other type, of which it
    takes [str(ty)]. *)
Inductive Ty : Type :=
  | PointerType (target : Ty)
  | OtherType (str : string).

(** [binaryninja.variable.Variable] *)
Record Var := {
  var_type : Ty;
  var_name : string;
}.

Record Function := {
  start : Z;
  name : string;
  symbol_full_name : string;            (* [f.symbol.full_name] *)
  address_ranges : list (Z * Z);        (* half-open ranges [(lo, hi)] *)
  func_comments : gmap Z string;        (* [f.get_comment_at] *)
  return_type : Ty;
  parameter_vars : list Var;
}.

(** A tag reference ([BNTagReference]): the tag object it points to, the
    tag's type and data, and the address it is attached to. *)
Record TagRef := {
  ref_tag : nat;          (* identity of the tag made by [BNCreateTag] *)
  ref_type : string;      (* name of the tag type *)
  ref_data : string;
  ref_addr : Z;
  ref_auto : bool;
}.

Global Instance TagRef_eq_dec : EqDecision TagRef.
Proof. solve_decision. Defined.

Record BinaryView := {
  handle : nat;
  bv_start : Z;                         (* [bv.start] *)
  tag_types : gmap string string;       (* name to icon *)
  tag_refs : list TagRef;               (* in creation order *)
  next_tag : nat;                       (* allocator of tag objects *)
  functions : list Function;
  bv_comments : gmap Z string;          (* [bv.get_comment_at] *)
}.

Definition set_tag_types (bv : BinaryView) (tt : gmap string string) : BinaryView :=
  {| handle := handle bv; bv_start := bv_start bv; tag_types := tt;
     tag_refs := tag_refs bv; next_tag := next_tag bv;
     functions := functions bv; bv_comments := bv_comments bv |}.

Definition set_tag_refs (bv : BinaryView) (refs : list TagRef) (next : nat) : BinaryView :=
  {| handle := handle bv; bv_start := bv_start bv; tag_types := tag_types bv;
     tag_refs := refs; next_tag := next;
     functions := functions bv; bv_comments := bv_comments bv |}.

(** [binaryninja.DataVariable]: its address, its name (possibly [None]
    or empty) and the full name of its symbol, if it has one. *)
Record DataVariable := {
  dv_address : Z;
  dv_name : option string;
  dv_symbol : option string;
}.

(** A token of a decompiled line: [tok.text] and [tok.type.name]. *)
Record Token := {
  tok_text : string;
  tok_type_name : string;
}.

(** A line of decompiled text: [line.address] and [line.tokens]. *)
Record DisassemblyTextLine := {
  line_address : Z;
  line_tokens : list Token;
}.

(** [func.hlil_if_available]: the lines of [func.root.lines]. *)
Record HighLevelILFunction := {
  root_lines : list DisassemblyTextLine;
}.

(** *** The Binary Ninja API calls the plugin makes *)

Definition in_range (addr : Z) (r : Z * Z) : bool :=
  (r.1 <=? addr) && (addr <? r.2).

Definition contains (f : Function) (addr : Z) : bool :=
  existsb (in_range addr) (address_ranges f).

(** [bv.get_functions_containing(addr)] *)
Definition get_functions_containing (bv : BinaryView) (addr : Z) : list Function :=
  filter (λ f, contains f addr = true) (functions bv).

(** [bv.get_function_at(addr)]: the function that starts at [addr]. *)
Definition get_function_at (bv : BinaryView) (addr : Z) : option Function :=
  find (λ f, start f =? addr) (functions bv).

(** [get_comment_at] answers the empty string where there is no comment. *)
Definition func_get_comment_at (f : Function) (addr : Z) : string :=
  default "" (func_comments f !! addr).

Definition bv_get_comment_at (bv : BinaryView) (addr : Z) : string :=
  default "" (bv_comments bv !! addr).

(** [bv.get_tag_type(name).handle]: [get_tag_type] answers [None] for an
    unknown name, and [None.handle] raises. A tag type's handle is
    identified with its name. *)
Definition tag_type_handle (bv : BinaryView) (name : string) : result string :=
  match tag_types bv !! name with
  | Some _ => Ok name
  | None => Raise AttributeError
  end.

(** [bv.create_tag_type(k, v)] *)
Definition create_tag_type (bv : BinaryView) (k v : string) : BinaryView :=
  set_tag_types bv (<[k := v]> (tag_types bv)).

(** ** Python built-ins the plugin uses *)

(** [str.split(sep)] for a one-character separator: the pieces between
    the separators, an empty piece included. *)
Fixpoint split (sep : Ascii.ascii) (s : string) : list string :=
  match s with
  | EmptyString => [EmptyString]
  | String c s' =>
      if Ascii.eqb c sep then EmptyString :: split sep s'
      else match split sep s' with
           | piece :: pieces => String c piece :: pieces
           | [] => [String c EmptyString]
           end
  end.

Definition newline : Ascii.ascii := "010"%char.

(** Python's [sorted(l, key=...)], for integer keys: a stable sort, here
    by insertion. *)
Fixpoint insert_by {A : Type} (key : A → Z) (x : A) (l : list A) : list A :=
  match l with
  | [] => [x]
  | y :: l' => if key x <=? key y then x :: y :: l' else y :: insert_by key x l'
  end.

Definition sorted {A : Type} (key : A → Z) (l : list A) : list A :=
  foldr (insert_by key) [] l.

(** Python's [format(n, "x")]: the digits in base 16, lower case, the
    most significant first, after a minus sign for a negative number. *)
Definition hex_digit (d : Z) : Ascii.ascii :=
  match d with
  | 0 => "0" | 1 => "1" | 2 => "2" | 3 => "3" | 4 => "4" | 5 => "5" | 6 => "6"
  | 7 => "7" | 8 => "8" | 9 => "9" | 10 => "a" | 11 => "b" | 12 => "c"
  | 13 => "d" | 14 => "e" | _ => "f"
  end%char.

Fixpoint hex_digits (fuel : nat) (n : Z) : string :=
  match fuel with
  | O => ""
  | S fuel' =>
      if n <? 16 then String (hex_digit n) ""
      else hex_digits fuel' (n / 16) +:+ String (hex_digit (n mod 16)) ""
  end.

(** The number of binary digits bounds the number of rounds. *)
Definition format_x (n : Z) : string :=
  if n <? 0 then "-" +:+ hex_digits (S (Z.to_nat (Z.log2 (- n)))) (- n)
  else hex_digits (S (Z.to_nat (Z.log2 n))) n.

(** ** binja_script.py *)

(** [get_widest_func]: [min(funcs, key=lambda f: f.start)] keeps the first
    of the elements with the least key. *)
Definition min_by_start (f0 : Function) (rest : list Function) : Function :=
  fold_left (λ best f, if start f <? start best then f else best) rest f0.

Definition get_widest_func (bv : BinaryView) (addr : Z) : option Function :=
  match get_functions_containing bv addr with
  | [] => None
  | f0 :: rest => Some (min_by_start f0 rest)
  end.

Definition add_auto_tag (bv : BinaryView) (addr : Z) (name desc : string)
  : result BinaryView :=
  h ← tag_type_handle bv name ;
  let tag := {| ref_tag := next_tag bv; ref_type := h; ref_data := desc;
                ref_addr := addr; ref_auto := true |} in
  Ok (set_tag_refs bv (tag_refs bv ++ [tag]) (S (next_tag bv))).

Definition get_tag_refs (bv : BinaryView) (ty : string) : result (list TagRef) :=
  h ← tag_type_handle bv ty ;
  Ok (filter (λ r, ref_type r = h) (tag_refs bv)).

Definition remove_tag_ref (bv : BinaryView) (ref : TagRef) : BinaryView :=
  set_tag_refs bv (filter (λ r, r ≠ ref) (tag_refs bv)) (next_tag bv).

(** [count_pointers]: the [while isinstance(ty, PointerType)] loop, with
    its counter [derefcnt]. *)
Fixpoint count_pointers_loop (ty : Ty) (derefcnt : Z) : string * Z :=
  match ty with
  | PointerType target => count_pointers_loop target (derefcnt + 1)
  | OtherType s => (s, derefcnt)
  end.

Definition count_pointers (ty : Ty) : string * Z := count_pointers_loop ty 0.

Definition to_register : list string :=
  ["clear_pc_tag"; "navigate_to"; "update_pc_tag"; "get_bp_tags"; "get_symbol";
   "get_func_info"; "get_data_info"; "get_comments"; "decompile_func";
   "get_func_type"; "get_base"; "get_py_version"; "get_version"].

Module ServerHandler.

(** [init]: adds the two tag types where they are missing. *)
Definition tag_types_wanted : list (string * string) :=
  [("pwndbg-pc", "➡️"); ("pwndbg-bp", "🔴")].

(** One round of the loop of [init]. *)
Definition init_step (b : BinaryView) (kv : string * string) : BinaryView :=
  match tag_types b !! kv.1 with
  | Some _ => b
  | None => create_tag_type b kv.1 kv.2
  end.

Definition init (bv : BinaryView) : BinaryView :=
  fold_left init_step tag_types_wanted bv.

Definition clear_pc_tag (bv : BinaryView) : result BinaryView :=
  refs ← get_tag_refs bv "pwndbg-pc" ;
  Ok (fold_left remove_tag_ref refs bv).

Definition update_pc_tag (bv : BinaryView) (new_pc : Z) : result BinaryView :=
  bv' ← clear_pc_tag bv ;
  add_auto_tag bv' new_pc "pwndbg-pc" "current pc".

Definition get_bp_tags (bv : BinaryView) : result (list Z) :=
  refs ← get_tag_refs bv "pwndbg-bp" ;
  Ok (fmap (M := list) ref_addr refs).

Definition get_func_info (bv : BinaryView) (addr : Z) : option (string * Z) :=
  match get_widest_func bv addr with
  | None => None
  | Some func => Some (symbol_full_name func, start func)
  end.

Definition get_comments (bv : BinaryView) (addr : Z) : list string :=
  let ret := [] in
  let ret :=
    fold_left (λ ret f, ret ++ split newline (func_get_comment_at f addr))
      (sorted start (get_functions_containing bv addr)) ret in
  let ret := ret ++ split newline (bv_get_comment_at bv addr) in
  (λ x, "// " +:+ x) <$> filter (λ x, x ≠ "") ret.

Definition get_func_type (bv : BinaryView) (addr : Z)
  : option ((string * Z * string) * list (string * Z * string)) :=
  match get_function_at bv addr with
  | None => None
  | Some f =>
      let ret_ty := (count_pointers (return_type f), name f) in
      let arg_tys :=
        (λ arg, (count_pointers (var_type arg), var_name arg)) <$> parameter_vars f in
      Some (ret_ty, arg_tys)
  end.

(** [get_data_info]; [get_data_var_at] stands for [self.bv.get_data_var_at].
    [dv.name or ...] takes the second operand when the name is [None] or
    empty. *)
Definition get_data_info (get_data_var_at : Z → option DataVariable) (addr : Z)
  : option (string * Z) :=
  match get_data_var_at addr with
  | None => None
  | Some dv =>
      match dv_symbol dv with
      | Some full_name => Some (full_name, dv_address dv)
      | None =>
          let synthesized := "data_" +:+ format_x (dv_address dv) in
          let name :=
            match dv_name dv with
            | Some n => if bool_decide (n = "") then synthesized else n
            | None => synthesized
            end in
          Some (name, dv_address dv)
      end
  end.

(** [decompile_func]; [hlil_if_available] stands for the property of that
    name of a function. *)
Definition decompile_func (hlil_if_available : Function → option HighLevelILFunction)
    (bv : BinaryView) (addr : Z) : option (list (Z * list (string * string))) :=
  match get_widest_func bv addr with
  | None => None
  | Some func =>
      match hlil_if_available func with
      | None => None
      | Some func =>
          let ret := [] in
          let ret :=
            fold_left
              (λ ret line,
                 ret ++ [(line_address line,
                          (λ tok, (tok_text tok, tok_type_name tok)) <$> line_tokens line)])
              (root_lines func) ret in
          Some ret
      end
  end.

Definition get_base (bv : BinaryView) : Z := bv_start bv.

End ServerHandler.

(** *** The server life cycle *)

Record Server := {
  srv_view : nat;               (* handle of the view the methods are bound to *)
  srv_functions : list string;  (* the registered procedures *)
  srv_serving : bool;           (* the [serve_forever] thread runs *)
}.

(** The module's global [server] and the messages of [logger]. *)
Record Globals := {
  server : option Server;
  log : list string;
}.

Definition introspection_functions : list string :=
  ["system.listMethods"; "system.methodHelp"; "system.methodSignature"].

(** [start_server]; [port_free] tells whether [SimpleXMLRPCServer] can bind
    its address. The answer is the view and the globals after the call, and
    the exception when one was raised: [init] has changed the view by then. *)
Definition start_server (port_free : bool) (bv : BinaryView) (g : Globals)
  : BinaryView * Globals * option exn :=
  let bv := ServerHandler.init bv in
  match server g with
  | Some _ => (bv, g, None)
  | None =>
      if port_free then
        let srv := {| srv_view := handle bv;
                      srv_functions := introspection_functions ++ to_register;
                      srv_serving := true |} in
        (bv,
         {| server := Some srv;
            log := log g ++ ["XML-RPC server listening on http://127.0.0.1:31337"] |},
         None)
      else (bv, g, Some OSError)
  end.

Definition stop_server (bv : BinaryView) (g : Globals) : BinaryView * Globals :=
  match server g with
  | None => (bv, g)
  | Some _ => (bv, {| server := None; log := log g |})
  end.

(** One round of the loop of [toggle_breakpoint]: the view and [found]. *)
Definition toggle_step (addr : Z) (st : BinaryView * bool) (t : TagRef)
  : BinaryView * bool :=
  if bool_decide (ref_addr t = addr) then (remove_tag_ref st.1 t, true) else st.

Definition toggle_breakpoint (bv : BinaryView) (addr : Z) : result BinaryView :=
  refs ← get_tag_refs bv "pwndbg-bp" ;
  let '(bv', found) := fold_left (toggle_step addr) refs (bv, false) in
  if found then Ok bv' else add_auto_tag bv' addr "pwndbg-bp" "GDB breakpoint".

(** * The debugger side: the event bus and the cache registry *)

Module events.

(** The events of [pwndbg.gdblib.events] that [hooks.py] names. *)
Inductive Event : Type :=
  | stop | mem_changed | reg_changed | exit | new_objfile | start | cont
  | thread | before_prompt.

Global Instance Event_eq_dec : EqDecision Event.
Proof. solve_decision. Defined.

(** Modelled from the spec: a cache of [pwndbg/lib/cache.py], which is not
    among the sources: the trigger groups it is subscribed to and what it
    holds. *)
Record Cache := {
  cache_name : string;
  groups : list string;
  contents : gmap Z Z;
}.

(** Modelled from the spec: clearing a cache empties it in one step. *)
Definition cleared (c : Cache) : Cache :=
  {| cache_name := cache_name c; groups := groups c; contents := ∅ |}.

(** Modelled from the spec: the state the handlers read and write: the
    caches, the rest of the debugger's state, and the reports of the
    handlers that failed. *)
Record State := {
  caches : list Cache;
  ambient : gmap string Z;
  reports : list string;
}.

(** Modelled from the spec: the handlers of the event bus
    ([pwndbg/gdblib/events.py] is not among the sources). A handler either
    clears the caches of a trigger group or is a reaction of some feature,
    which answers the new state and whether it failed. *)
Inductive Handler : Type :=
  | ClearCaches (group : string)
  | Feature (name : string) (run : State → State * bool).

Definition is_feature (h : Handler) : Prop :=
  match h with ClearCaches _ => False | Feature _ _ => True end.

(** Modelled from the spec: one call of [register(event, handler,
    priority)], and the bus as the calls made so far, in their order. *)
Record Registration := {
  reg_event : Event;
  reg_priority : Z;
  reg_handler : Handler;
}.

Definition register (bus : list Registration) (e : Event) (h : Handler) (priority : Z)
  : list Registration :=
  bus ++ [{| reg_event := e; reg_priority := priority; reg_handler := h |}].

(** Modelled from the spec: the handlers of an event, ordered by priority
    (lower first) and, for equal priorities, by insertion. *)
Definition handlers_of (bus : list Registration) (e : Event) : list Handler :=
  reg_handler <$> sorted reg_priority (filter (λ r, reg_event r = e) bus).

(** Modelled from the spec: clearing a trigger group empties every cache
    subscribed to it. *)
Definition clear_group (g : string) (s : State) : State :=
  {| caches := (λ c, if bool_decide (g ∈ groups c) then cleared c else c) <$> caches s;
     ambient := ambient s; reports := reports s |}.

(** Modelled from the spec: a handler that fails is reported, and the
    dispatch goes on. *)
Definition run_handler (s : State) (h : Handler) : State :=
  match h with
  | ClearCaches g => clear_group g s
  | Feature name run =>
      let '(s', failed) := run s in
      if failed
      then {| caches := caches s'; ambient := ambient s';
              reports := reports s' ++ [name] |}
      else s'
  end.

Definition run_handlers (hs : list Handler) (s : State) : State :=
  fold_left run_handler hs s.

(** Modelled from the spec: [dispatch(event)] runs the handlers of the
    event in order. *)
Definition dispatch (bus : list Registration) (e : Event) (s : State) : State :=
  run_handlers (handlers_of bus e) s.

(** The handlers of a dispatch, each with the state it starts from. *)
Fixpoint observed (hs : list Handler) (s : State) : list (Handler * State) :=
  match hs with
  | [] => []
  | h :: hs' => (h, s) :: observed hs' (run_handler s h)
  end.

End events.

Module cache.

Import events.

(** Modelled from the spec: [connect_clear_caching_events(event_dicts,
    priority)] of [pwndbg/lib/cache.py], which is not among the sources:
    for every group and every event of the group, it registers at
    [priority] the handler that clears the caches of the group. *)
Definition connect_clear_caching_events
    (event_dicts : list (string * list Event)) (priority : Z)
    (bus : list Registration) : list Registration :=
  fold_left
    (λ bus kv, fold_left (λ bus e, register bus e (ClearCaches kv.1) priority) kv.2 bus)
    event_dicts bus.

End cache.

(** ** pwndbg/gdblib/hooks.py *)

Module hooks.

Import events.

(** The dictionary [hooks.py] passes to [connect_clear_caching_events],
    with its entries in their order. *)
Definition clear_caching_events : list (string * list Event) :=
  [("stop", [stop; mem_changed; reg_changed]);
   ("exit", [exit]);
   ("objfile", [new_objfile]);
   ("start", [start]);
   ("cont", [cont; mem_changed; reg_changed]);
   ("thread", [thread]);
   ("prompt", [before_prompt]);
   ("forever", [])].

Section Handlers.

(** The updates the handlers call, whose modules are not among the
    sources: each answers the new state and whether it raised. *)
Variables typeinfo_update arch_update reset_kconfig abi_update update_min_addr
  reset_remote_files clear_temp_breaks update_length : State → State * bool.

(** The priority [event_handler] registers at, and
    [HandlerPriority.CACHE_CLEAR]. *)
Variables default_priority CACHE_CLEAR : Z.

(** Two calls in a row: the second is not made when the first raises. *)
Definition and_then (f g : State → State * bool) : State → State * bool :=
  λ s, let '(s1, failed) := f s in if failed then (s1, true) else g s1.

Definition update_typeinfo : Handler := Feature "update_typeinfo" typeinfo_update.
Definition update_arch : Handler := Feature "update_arch" arch_update.
Definition reset_config : Handler := Feature "reset_config" reset_kconfig.
Definition on_start : Handler :=
  Feature "on_start" (and_then abi_update update_min_addr).
Definition on_exit : Handler :=
  Feature "on_exit" (and_then reset_remote_files clear_temp_breaks).
Definition on_stop : Handler := Feature "on_stop" update_length.

(** The decorator [@pwndbg.dbg.event_handler(...)]; of several decorators
    on one function the lowest is applied first. *)
Definition event_handler (e : Event) (h : Handler) (bus : list Registration)
  : list Registration :=
  register bus e h default_priority.

(** The registrations the module makes when it is loaded, in order. *)
Definition feature_handlers (bus : list Registration) : list Registration :=
  let bus := event_handler stop update_typeinfo bus in
  let bus := event_handler start update_typeinfo bus in
  let bus := event_handler new_objfile update_typeinfo bus in
  let bus := event_handler new_objfile update_arch bus in
  let bus := event_handler stop update_arch bus in
  let bus := event_handler start update_arch bus in
  let bus := event_handler new_objfile reset_config bus in
  let bus := event_handler start on_start bus in
  let bus := event_handler exit on_exit bus in
  event_handler stop on_stop bus.

Definition module_body (bus : list Registration) : list Registration :=
  cache.connect_clear_caching_events clear_caching_events CACHE_CLEAR
    (feature_handlers bus).

End Handlers.

(** The events that trigger a group: the dictionary's entry for it. *)
Definition events_of (group : string) : option (list Event) :=
  snd <$> find (λ kv, String.eqb kv.1 group) clear_caching_events.

(** The groups an event triggers. *)
Definition groups_of (e : Event) : list string :=
  fst <$> filter (λ kv, e ∈ kv.2) clear_caching_events.

End hooks.

(** ** Address translation *)

Module translate.

(** Modelled from the spec: the translation between runtime and static
    addresses ([pwndbg/integration/binja.py], whose [r2l]
    [commands/binja.py] calls, is not among the sources). *)
Record TranslationContext := {
  runtime_base : Z;   (* the loaded image in the debuggee *)
  static_base : Z;    (* the same image in the analysis tool *)
}.

Definition to_static (ctx : TranslationContext) (runtime_addr : Z) : Z :=
  runtime_addr - runtime_base ctx + static_base ctx.

Definition to_runtime (ctx : TranslationContext) (static_addr : Z) : Z :=
  static_addr - static_base ctx + runtime_base ctx.

End translate.

(** ** pwndbg/commands/binja.py *)

Module commands.

(** [pwndbg.gdblib.regs]: the names of the current register set and the
    values of the registers that have one ([regs[r]] is [None] for the
    others). *)
Record Regs := {
  current : list string;
  reg_values : gmap string Z;
}.

Definition regs_getitem (regs : Regs) (r : string) : option Z := reg_values regs !! r.

(** The dictionary [bn_eval] builds: the registers that have a value, then
    ["piebase"]. *)
Definition magic_vars (regs : Regs) (binary_base_addr : Z) : gmap string Z :=
  let magic_vars : gmap string Z := ∅ in
  let magic_vars :=
    fold_left
      (λ (m : gmap string Z) r,
         match regs_getitem regs r with
         | Some v => <[r := v]> m
         | None => m
         end)
      (current regs) magic_vars in
  <["piebase" := binary_base_addr]> magic_vars.

(** [bn_eval]; [parse_expr] stands for the call to Binary Ninja. *)
Definition bn_eval (parse_expr : string → gmap string Z → option Z)
    (regs : Regs) (binary_base_addr : Z) (expr : string) : option Z :=
  parse_expr expr (magic_vars regs binary_base_addr).

(** [bn_sym]; [get_symbol_addr] stands for the call to Binary Ninja and
    [r2l] for the translation of its address. *)
Definition bn_sym (get_symbol_addr : string → option Z) (r2l : Z → Z) (name : string)
  : option Z :=
  match get_symbol_addr name with
  | None => None
  | Some addr => Some (r2l addr)
  end.

End commands.

(** * Definitions for the statements *)

(** ** Tags *)

(** A reference is a breakpoint tag at [a]. *)
Definition is_bp_at (a : Z) (r : TagRef) : Prop :=
  ref_type r = "pwndbg-bp" ∧ ref_addr r = a.

Global Instance is_bp_at_dec a r : Decision (is_bp_at a r).
Proof. unfold is_bp_at. apply _. Defined.

(** The tag type [ty] has been created in the view (by [init]). *)
Definition registered (bv : BinaryView) (ty : string) : Prop :=
  is_Some (tag_types bv !! ty).

(** The tag a call of [add_auto_tag] makes. *)
Definition new_tag (bv : BinaryView) (addr : Z) (ty desc : string) : TagRef :=
  {| ref_tag := next_tag bv; ref_type := ty; ref_data := desc;
     ref_addr := addr; ref_auto := true |}.

(** [toggle_breakpoint] in closed form. *)
Definition toggled (bv : BinaryView) (a : Z) : BinaryView :=
  if bool_decide (Exists (is_bp_at a) (tag_refs bv))
  then set_tag_refs bv (filter (λ r, ¬ is_bp_at a r) (tag_refs bv)) (next_tag bv)
  else set_tag_refs bv
         (tag_refs bv ++ [new_tag bv a "pwndbg-bp" "GDB breakpoint"])
         (S (next_tag bv)).

(** The addresses that carry a breakpoint tag, in the order of
    [get_tag_refs]. *)
Definition bp_addrs (bv : BinaryView) : list Z :=
  ref_addr <$> filter (λ r, ref_type r = "pwndbg-bp") (tag_refs bv).

(** A run of [toggle_breakpoint] calls, one per address of the list. *)
Fixpoint toggle_all (bv : BinaryView) (addrs : list Z) : result BinaryView :=
  match addrs with
  | [] => Ok bv
  | a :: rest => bv' ← toggle_breakpoint bv a; toggle_all bv' rest
  end.

(** ** Types, sorting, lines *)

(** The type reached by following the pointers, and the number of
    pointers followed. *)
Fixpoint leaf_type (ty : Ty) : string :=
  match ty with
  | PointerType target => leaf_type target
  | OtherType s => s
  end.

Fixpoint pointer_depth (ty : Ty) : nat :=
  match ty with
  | PointerType target => S (pointer_depth target)
  | OtherType _ => 0
  end.

(** [ty] under [n] pointer wrappers. *)
Fixpoint pointers_to (n : nat) (ty : Ty) : Ty :=
  match n with
  | O => ty
  | S n' => PointerType (pointers_to n' ty)
  end.

(** What [get_func_type] answers for the function [f]. *)
Definition func_type_of (f : Function)
  : (string * Z * string) * list (string * Z * string) :=
  ((leaf_type (return_type f), Z.of_nat (pointer_depth (return_type f)), name f),
   (λ v, (leaf_type (var_type v), Z.of_nat (pointer_depth (var_type v)), var_name v))
     <$> parameter_vars f).

(** The order of the keys. *)
Definition key_le {A : Type} (key : A → Z) (x y : A) : Prop := key x ≤ key y.

(** The string has the character [c]. *)
Fixpoint has_char (c : Ascii.ascii) (s : string) : bool :=
  match s with
  | EmptyString => false
  | String d s' => Ascii.eqb d c || has_char c s'
  end.

(** The raw comment lines [get_comments] collects, before the empty ones
    are dropped: those of the functions [fs], then those of the view. *)
Definition raw_lines (bv : BinaryView) (fs : list Function) (addr : Z) : list string :=
  concat ((λ f, split newline (func_get_comment_at f addr)) <$> fs)
  ++ split newline (bv_get_comment_at bv addr).

Definition nl : string := String newline EmptyString.

(** ** Events *)

Section EventStatements.

Import events.

Definition registration (p : Z) (h : Handler) (e : Event) : Registration :=
  {| reg_event := e; reg_priority := p; reg_handler := h |}.

(** The registrations [connect_clear_caching_events] makes. *)
Definition clear_registrations (event_dicts : list (string * list Event)) (p : Z)
  : list Registration :=
  event_dicts ≫= λ kv, registration p (ClearCaches kv.1) <$> kv.2.

(** A feature registered above the priority of the cache clearing. *)
Definition feature_above (cc : Z) (r : Registration) : Prop :=
  is_feature (reg_handler r) ∧ cc < reg_priority r.

(** What the clearing handlers of the groups [gs] do to a cache. *)
Definition clear_if_subscribed (gs : list string) (c : Cache) : Cache :=
  if bool_decide (Exists (λ g, g ∈ groups c) gs) then cleared c else c.

End EventStatements.

(** ** Examples *)

(** The functions of the example: F1 covers [0x1000, 0x2000) and F2
    covers [0x1500, 0x1800). *)
Definition F1 : Function :=
  {| start := 0x1000; name := "F1"; symbol_full_name := "F1";
     address_ranges := [(0x1000, 0x2000)]; func_comments := ∅;
     return_type := OtherType "void"; parameter_vars := [] |}.

Definition F2 : Function :=
  {| start := 0x1500; name := "F2"; symbol_full_name := "F2";
     address_ranges := [(0x1500, 0x1800)]; func_comments := ∅;
     return_type := OtherType "void"; parameter_vars := [] |}.

(** An empty view, and the same view after [init]. *)
Definition empty_view : BinaryView :=
  {| handle := 1; bv_start := 0x400000; tag_types := ∅; tag_refs := [];
     next_tag := 0; functions := []; bv_comments := ∅ |}.

Definition example_view : BinaryView := ServerHandler.init empty_view.

(** The module's globals before the first start. *)
Definition globals0 : Globals := {| server := None; log := [] |}.

(** An update that changes nothing and does not fail. *)
Definition quiet : events.State → events.State * bool := λ s, (s, false).

Definition example_features : list events.Registration :=
  hooks.feature_handlers quiet quiet quiet quiet quiet quiet quiet quiet 1 [].

Definition example_bus : list events.Registration :=
  hooks.module_body quiet quiet quiet quiet quiet quiet quiet quiet 1 0 [].

(** Two caches: one of group "stop", one of group "forever". *)
Definition example_state : events.State :=
  {| events.caches :=
       [ {| events.cache_name := "regs"; events.groups := ["stop"];
            events.contents := {[ 1 := 2 ]} |};
         {| events.cache_name := "libc"; events.groups := ["forever"];
            events.contents := {[ 3 := 4 ]} |} ];
     events.ambient := ∅;
     events.reports := [] |}.

(** ** Runs of operations *)

(** The operations on tags the plugin offers. *)
Inductive TagOp : Type :=
  | OpClearPc
  | OpUpdatePc (new_pc : Z)
  | OpToggle (addr : Z)
  | OpInit.

Definition run_op (bv : BinaryView) (op : TagOp) : result BinaryView :=
  match op with
  | OpClearPc => ServerHandler.clear_pc_tag bv
  | OpUpdatePc new_pc => ServerHandler.update_pc_tag bv new_pc
  | OpToggle addr => toggle_breakpoint bv addr
  | OpInit => Ok (ServerHandler.init bv)
  end.

(** A run stops at the first operation that raises. *)
Fixpoint run_ops (bv : BinaryView) (ops : list TagOp) : result BinaryView :=
  match ops with
  | [] => Ok bv
  | op :: rest => bv' ← run_op bv op; run_ops bv' rest
  end.

(** How often [x] is in the list. *)
Definition occurrences (x : Z) (l : list Z) : nat :=
  length (filter (λ y, y = x) l).

(** The references of the PC tag. *)
Definition pc_refs (bv : BinaryView) : list TagRef :=
  filter (λ r, ref_type r = "pwndbg-pc") (tag_refs bv).

(** ** The bus of hooks.py *)

Section HooksBus.

Variables typeinfo_update arch_update reset_kconfig abi_update update_min_addr
  reset_remote_files clear_temp_breaks update_length
  : events.State → events.State * bool.
Variables default_priority CACHE_CLEAR : Z.

(** The features [hooks.py] registers, before its call of
    [connect_clear_caching_events]. *)
Definition hooks_features : list events.Registration :=
  hooks.feature_handlers typeinfo_update arch_update reset_kconfig abi_update
    update_min_addr reset_remote_files clear_temp_breaks update_length
    default_priority [].

(** The bus after [hooks.py] is loaded. *)
Definition hooks_bus : list events.Registration :=
  hooks.module_body typeinfo_update arch_update reset_kconfig abi_update
    update_min_addr reset_remote_files clear_temp_breaks update_length
    default_priority CACHE_CLEAR [].

End HooksBus.

(** ** Reading a number in base 16 *)

(** The value of a digit of base 16, by its code: "0" to "9" are 48 to 57
    and "a" to "f" are 97 to 102. *)
Definition hex_value (c : Ascii.ascii) : option Z :=
  let code := Z.of_nat (Ascii.nat_of_ascii c) in
  if (48 <=? code) && (code <=? 57) then Some (code - 48)
  else if (97 <=? code) && (code <=? 102) then Some (code - 87)
  else None.

Fixpoint parse_hex_from (acc : Z) (s : string) : option Z :=
  match s with
  | EmptyString => Some acc
  | String c s' =>
      match hex_value c with
      | Some v => parse_hex_from (acc * 16 + v) s'
      | None => None
      end
  end.

Definition parse_x (s : string) : option Z :=
  match s with
  | EmptyString => parse_hex_from 0 s
  | String c s' =>
      if Ascii.eqb c "-" then Z.opp <$> parse_hex_from 0 s'
      else parse_hex_from 0 s
  end.

(** * Lemmas on lists *)

Lemma filter_ext_in {A} (P Q : A → Prop)
    `{!∀ x, Decision (P x)} `{!∀ x, Decision (Q x)} (l : list A) :
  (∀ x, x ∈ l → (P x ↔ Q x)) → filter P l = filter Q l.
Proof.
  induction l as [|x l IH]; intros Hext; [done|].
  rewrite !filter_cons.
  rewrite IH by (intros y Hy; apply Hext; by right).
  pose proof (Hext x (list_elem_of_here _ _)) as Hx.
  destruct (decide (P x)) as [HP|HP], (decide (Q x)) as [HQ|HQ];
    try done; tauto.
Qed.

Lemma filter_all {A} (P : A → Prop) `{!∀ x, Decision (P x)} (l : list A) :
  (∀ x, x ∈ l → P x) → filter P l = l.
Proof.
  induction l as [|x l IH]; intros Hall; [done|].
  rewrite filter_cons_True by (apply Hall; left).
  f_equal. apply IH. intros y Hy. apply Hall. by right.
Qed.

Lemma fold_left_app_concat {A B} (g : A → list B) (l : list A) (acc : list B) :
  fold_left (λ ret f, ret ++ g f) l acc = acc ++ concat (g <$> l).
Proof.
  revert acc. induction l as [|x l IH]; intros acc; cbn [fold_left].
  - by rewrite app_nil_r.
  - rewrite IH, fmap_cons, concat_cons. by rewrite <- app_assoc.
Qed.

(** ** The stable sort *)

Section Sorted.

Context {A : Type} (key : A → Z).

Lemma insert_by_perm (x : A) (l : list A) : insert_by key x l ≡ₚ x :: l.
Proof.
  induction l as [|y l IH]; cbn [insert_by]; [done|].
  destruct (key x <=? key y); [done|].
  rewrite IH. apply Permutation_swap.
Qed.

Lemma sorted_perm (l : list A) : sorted key l ≡ₚ l.
Proof.
  induction l as [|x l IH]; [done|].
  cbn [sorted foldr]. fold (sorted key l).
  by rewrite insert_by_perm, IH.
Qed.

Lemma insert_by_sorted (x : A) (l : list A) :
  StronglySorted (key_le key) l → StronglySorted (key_le key) (insert_by key x l).
Proof.
  induction 1 as [|y l Hl IH Hy]; cbn [insert_by].
  - repeat constructor.
  - destruct (Z.leb_spec (key x) (key y)) as [Hle|Hgt].
    + constructor; [by constructor|]. constructor; [done|].
      eapply Forall_impl; [exact Hy|]. unfold key_le. intros z Hz. lia.
    + constructor; [done|].
      rewrite insert_by_perm. constructor; [|done].
      unfold key_le. lia.
Qed.

Lemma sorted_sorted (l : list A) : StronglySorted (key_le key) (sorted key l).
Proof.
  induction l as [|x l IH]; [constructor|].
  cbn [sorted foldr]. by apply insert_by_sorted.
Qed.

(** Stability: elements with the same key keep their order. *)
Lemma insert_by_stable (k : Z) (x : A) (l : list A) :
  filter (λ y, key y = k) (insert_by key x l) = filter (λ y, key y = k) (x :: l).
Proof.
  induction l as [|y l IH]; cbn [insert_by]; [done|].
  destruct (Z.leb_spec (key x) (key y)) as [Hle|Hgt]; [done|].
  rewrite (filter_cons _ y), IH, !(filter_cons _ x), (filter_cons _ y).
  destruct (decide (key y = k)), (decide (key x = k)); try done. lia.
Qed.

Lemma sorted_stable (k : Z) (l : list A) :
  filter (λ y, key y = k) (sorted key l) = filter (λ y, key y = k) l.
Proof.
  induction l as [|x l IH]; [done|].
  cbn [sorted foldr]. fold (sorted key l).
  by rewrite insert_by_stable, !(filter_cons _ x), IH.
Qed.

(** An element with a key above those of a prefix goes past the prefix. *)
Lemma insert_by_past (x : A) (l1 l2 : list A) :
  Forall (λ y, key y < key x) l1 →
  insert_by key x (l1 ++ l2) = l1 ++ insert_by key x l2.
Proof.
  induction 1 as [|y l1 Hy Hl1 IH]; [done|].
  cbn [app insert_by]. destruct (Z.leb_spec (key x) (key y)); [lia|].
  by rewrite IH.
Qed.

(** An element with a key not above any other goes to the front. *)
Lemma insert_by_front (x : A) (l : list A) :
  Forall (λ y, key x ≤ key y) l → insert_by key x l = x :: l.
Proof.
  destruct 1 as [|y l Hy Hl]; [done|].
  cbn [insert_by]. by destruct (Z.leb_spec (key x) (key y)); [|lia].
Qed.

(** Where every key is either [k] or above [k], the sort puts the elements
    of key [k] first, in their given order, and the sorted rest after. *)
Lemma sorted_least_first (k : Z) (l : list A) :
  Forall (λ y, k ≤ key y) l →
  sorted key l
  = filter (λ y, key y = k) l ++ sorted key (filter (λ y, key y ≠ k) l).
Proof.
  induction 1 as [|x l Hx Hl IH]; [done|].
  cbn [sorted foldr]. fold (sorted key l). rewrite IH.
  rewrite !(filter_cons _ x).
  destruct (decide (key x = k)) as [Heq|Hne].
  - rewrite decide_False by (intros Hn; by apply Hn).
    apply insert_by_front. apply Forall_app. split.
    + apply Forall_forall. intros y [Hy _]%list_elem_of_filter. lia.
    + assert (Hall : Forall (λ y, k ≤ key y) (sorted key (filter (λ y, key y ≠ k) l))).
      { rewrite sorted_perm. apply Forall_forall.
        intros y [_ Hy]%list_elem_of_filter. revert y Hy. by apply Forall_forall. }
      eapply Forall_impl; [exact Hall|]. intros y Hy. cbn in Hy. lia.
  - rewrite decide_True by done. cbn [sorted foldr].
    fold (sorted key (filter (λ y, key y ≠ k) l)).
    apply insert_by_past.
    apply Forall_forall. intros y [Hy _]%list_elem_of_filter. lia.
Qed.

End Sorted.

(** * Properties of the tag synchronizer *)

Section TagSync.

Implicit Types (bv : BinaryView) (a addr : Z) (r t : TagRef).

Lemma tag_type_handle_registered bv ty :
  registered bv ty → tag_type_handle bv ty = Ok ty.
Proof. intros [v Hv]. unfold tag_type_handle. by rewrite Hv. Qed.

Lemma get_tag_refs_registered bv ty :
  registered bv ty →
  get_tag_refs bv ty = Ok (filter (λ r, ref_type r = ty) (tag_refs bv)).
Proof.
  intros H. unfold get_tag_refs. by rewrite (tag_type_handle_registered _ _ H).
Qed.

Lemma set_tag_refs_id bv : set_tag_refs bv (tag_refs bv) (next_tag bv) = bv.
Proof. by destruct bv. Qed.

Lemma set_tag_refs_twice bv l1 n1 l2 n2 :
  set_tag_refs (set_tag_refs bv l1 n1) l2 n2 = set_tag_refs bv l2 n2.
Proof. done. Qed.

(** Removing a list of references, one after the other, leaves the
    references that are not in the list. *)
Lemma remove_all_refs refs bv :
  fold_left remove_tag_ref refs bv
  = set_tag_refs bv (filter (λ r, r ∉ refs) (tag_refs bv)) (next_tag bv).
Proof.
  revert bv. induction refs as [|t refs IH]; intros bv; simpl.
  - rewrite <- (set_tag_refs_id bv) at 1. f_equal.
    induction (tag_refs bv) as [|x l IHl]; [done|].
    rewrite filter_cons_True; [by f_equal | apply not_elem_of_nil].
  - rewrite IH. unfold remove_tag_ref. rewrite set_tag_refs_twice. simpl.
    f_equal. rewrite list_filter_filter. apply list_filter_iff.
    intros x. rewrite not_elem_of_cons. tauto.
Qed.

Lemma toggle_loop refs addr bv found :
  fold_left (toggle_step addr) refs (bv, found)
  = (set_tag_refs bv
       (filter (λ r, ¬ (r ∈ refs ∧ ref_addr r = addr)) (tag_refs bv))
       (next_tag bv),
     found || bool_decide (Exists (λ t, ref_addr t = addr) refs)).
Proof.
  revert bv found. induction refs as [|t refs IH]; intros bv found;
    cbn [fold_left].
  - f_equal.
    + rewrite <- (set_tag_refs_id bv) at 1. f_equal.
      induction (tag_refs bv) as [|x l IHl]; [done|].
      rewrite filter_cons_True; [by f_equal|].
      intros [H _]. by apply not_elem_of_nil in H.
    + rewrite bool_decide_eq_false_2; [by rewrite orb_false_r|].
      intros H. by apply Exists_nil in H.
  - unfold toggle_step at 2.
    destruct (bool_decide_reflect (ref_addr t = addr)) as [Ht|Ht]; cbn [fst].
    + rewrite IH. unfold remove_tag_ref. rewrite set_tag_refs_twice. simpl.
      f_equal.
      * f_equal. rewrite list_filter_filter. apply list_filter_iff.
        intros x. rewrite elem_of_cons. split.
        -- intros [H1 H2] [[->|H3] H4]; [done|]. apply H1. done.
        -- intros H. split.
           ++ intros [H1 H2]. apply H. eauto.
           ++ intros ->. apply H. eauto.
      * rewrite (bool_decide_eq_true_2 (Exists _ (t :: refs))).
        -- by rewrite orb_true_r.
        -- by apply Exists_cons_hd.
    + rewrite IH. f_equal.
      * f_equal. apply list_filter_iff. intros x. rewrite elem_of_cons.
        split.
        -- intros H [[->|H3] H4]; [done|]. apply H. done.
        -- intros H [H1 H2]. apply H. eauto.
      * f_equal. apply bool_decide_ext. rewrite Exists_cons. tauto.
Qed.

Lemma add_auto_tag_registered bv addr ty desc :
  registered bv ty →
  add_auto_tag bv addr ty desc
  = Ok (set_tag_refs bv (tag_refs bv ++ [new_tag bv addr ty desc]) (S (next_tag bv))).
Proof.
  intros H. unfold add_auto_tag. by rewrite (tag_type_handle_registered _ _ H).
Qed.

Lemma toggle_breakpoint_toggled bv a :
  registered bv "pwndbg-bp" → toggle_breakpoint bv a = Ok (toggled bv a).
Proof.
  intros Hreg. unfold toggle_breakpoint.
  rewrite (get_tag_refs_registered _ _ Hreg). cbn [mbind result_bind].
  change (fold_left _ ?l (bv, false)) with (fold_left (toggle_step a) l (bv, false)).
  rewrite toggle_loop, orb_false_l.
  set (refs := filter (λ r, ref_type r = "pwndbg-bp") (tag_refs bv)).
  assert (Hex : Exists (λ t, ref_addr t = a) refs ↔ Exists (is_bp_at a) (tag_refs bv)).
  { rewrite !Exists_exists. unfold refs, is_bp_at. split.
    - intros (t & Ht & Ha). apply list_elem_of_filter in Ht as [? ?]. eauto.
    - intros (t & Ht & Hty & Ha). exists t. split; [|done].
      apply list_elem_of_filter. done. }
  assert (Hfil : filter (λ r, ¬ (r ∈ refs ∧ ref_addr r = a)) (tag_refs bv)
                 = filter (λ r, ¬ is_bp_at a r) (tag_refs bv)).
  { apply filter_ext_in. intros x Hx. unfold refs, is_bp_at.
    rewrite list_elem_of_filter. tauto. }
  unfold toggled. rewrite (bool_decide_ext _ _ Hex), Hfil.
  destruct (bool_decide_reflect (Exists (is_bp_at a) (tag_refs bv))) as [He|He];
    [done|].
  rewrite filter_all, set_tag_refs_id.
  - by apply add_auto_tag_registered.
  - intros x Hx Hb. apply He, Exists_exists. eauto.
Qed.

Lemma toggled_registered bv a ty : registered (toggled bv a) ty ↔ registered bv ty.
Proof. unfold toggled. by case_bool_decide. Qed.

Lemma get_bp_tags_registered bv :
  registered bv "pwndbg-bp" → ServerHandler.get_bp_tags bv = Ok (bp_addrs bv).
Proof.
  intros H. unfold ServerHandler.get_bp_tags.
  by rewrite (get_tag_refs_registered _ _ H).
Qed.

Lemma elem_of_bp_addrs bv a :
  a ∈ bp_addrs bv ↔ Exists (is_bp_at a) (tag_refs bv).
Proof.
  unfold bp_addrs. rewrite list_elem_of_fmap, Exists_exists. split.
  - intros (r & -> & Hr). apply list_elem_of_filter in Hr as [? ?].
    exists r. by repeat split.
  - intros (r & Hr & Hty & Ha). exists r. split; [done|].
    by apply list_elem_of_filter.
Qed.

Lemma bp_addrs_removed a (l : list TagRef) :
  ref_addr <$> filter (λ r, ref_type r = "pwndbg-bp") (filter (λ r, ¬ is_bp_at a r) l)
  = filter (λ x, x ≠ a) (ref_addr <$> filter (λ r, ref_type r = "pwndbg-bp") l).
Proof.
  induction l as [|r l IH]; [done|].
  rewrite (filter_cons (λ r, ¬ is_bp_at a r)), (filter_cons _ r l).
  unfold is_bp_at at 1.
  destruct (decide (ref_type r = "pwndbg-bp")) as [Hty|Hty],
           (decide (ref_addr r = a)) as [Ha|Ha].
  - case_decide as Hn; [exfalso; by apply Hn|].
    rewrite fmap_cons, filter_cons_False; [apply IH|]. intros Hne. by apply Hne.
  - case_decide as Hn; [|by destruct Hn].
    rewrite filter_cons_True, !fmap_cons, filter_cons_True by done.
    f_equal. apply IH.
  - case_decide as Hn; [|by destruct Hn].
    rewrite filter_cons_False by done. apply IH.
  - case_decide as Hn; [|by destruct Hn].
    rewrite filter_cons_False by done. apply IH.
Qed.

Lemma bp_addrs_toggled bv a :
  bp_addrs (toggled bv a)
  = if bool_decide (a ∈ bp_addrs bv)
    then filter (λ x, x ≠ a) (bp_addrs bv)
    else bp_addrs bv ++ [a].
Proof.
  rewrite (bool_decide_ext _ _ (elem_of_bp_addrs bv a)).
  unfold toggled. case_bool_decide as He; unfold bp_addrs; cbn [tag_refs set_tag_refs].
  - apply bp_addrs_removed.
  - rewrite filter_app, fmap_app. f_equal.
Qed.

(** The tags of the other types stay as they are. *)
Lemma toggled_other_types bv a :
  filter (λ r, ref_type r ≠ "pwndbg-bp") (tag_refs (toggled bv a))
  = filter (λ r, ref_type r ≠ "pwndbg-bp") (tag_refs bv).
Proof.
  unfold toggled. case_bool_decide as He; cbn [tag_refs set_tag_refs].
  - rewrite list_filter_filter. apply list_filter_iff.
    intros x. unfold is_bp_at. tauto.
  - rewrite filter_app. cbn. by rewrite app_nil_r.
Qed.

End TagSync.

(** ** Toggling breakpoints *)

Lemma toggle_twice_same_addrs (bv : BinaryView) (a x : Z) :
  x ∈ bp_addrs (toggled (toggled bv a) a) ↔ x ∈ bp_addrs bv.
Proof.
  rewrite !bp_addrs_toggled.
  destruct (bool_decide_reflect (a ∈ bp_addrs bv)) as [Hin|Hin].
  - rewrite bool_decide_eq_false_2.
    + rewrite elem_of_app, list_elem_of_filter, list_elem_of_singleton.
      destruct (decide (x = a)) as [->|Hne]; tauto.
    + rewrite list_elem_of_filter. tauto.
  - rewrite bool_decide_eq_true_2.
    + rewrite list_elem_of_filter, elem_of_app, list_elem_of_singleton.
      split; [tauto|]. intros Hx. split; [|tauto]. by intros ->.
    + rewrite elem_of_app, list_elem_of_singleton. tauto.
Qed.

(** C2: [toggle_breakpoint(a)] removes every breakpoint tag at [a] when
    there is one, and nothing else; otherwise it creates exactly one
    breakpoint tag at [a]. Two toggles in a row at [a] give back the set
    of addresses that carry a breakpoint tag. From a view without
    breakpoint tags, toggling [a], then [b], then [a], with [a] and [b]
    distinct, leaves [get_bp_tags()] with [b] alone. *)
Theorem toggle_breakpoint_spec (bv : BinaryView) (a : Z) :
  registered bv "pwndbg-bp" →
  ∃ bv1 bv2,
    toggle_breakpoint bv a = Ok bv1 ∧
    toggle_breakpoint bv1 a = Ok bv2 ∧
    (Exists (is_bp_at a) (tag_refs bv) →
       tag_refs bv1 = filter (λ r, ¬ is_bp_at a r) (tag_refs bv) ∧
       ¬ Exists (is_bp_at a) (tag_refs bv1)) ∧
    (¬ Exists (is_bp_at a) (tag_refs bv) →
       ∃ t, tag_refs bv1 = tag_refs bv ++ [t] ∧ is_bp_at a t) ∧
    (∃ l0 l2, ServerHandler.get_bp_tags bv = Ok l0 ∧
              ServerHandler.get_bp_tags bv2 = Ok l2 ∧
              ∀ x, x ∈ l2 ↔ x ∈ l0) ∧
    (∀ b, a ≠ b → ServerHandler.get_bp_tags bv = Ok [] →
       ∃ bv2' bv3, toggle_breakpoint bv1 b = Ok bv2' ∧
                   toggle_breakpoint bv2' a = Ok bv3 ∧
                   ServerHandler.get_bp_tags bv3 = Ok [b]).
Proof.
  intros Hreg.
  assert (Hreg1 : registered (toggled bv a) "pwndbg-bp") by by apply toggled_registered.
  assert (Hreg2 : registered (toggled (toggled bv a) a) "pwndbg-bp")
    by by apply toggled_registered.
  exists (toggled bv a), (toggled (toggled bv a) a).
  split; [by apply toggle_breakpoint_toggled|].
  split; [by apply toggle_breakpoint_toggled|].
  split; [|split; [|split]].
  - intros He. unfold toggled. rewrite bool_decide_eq_true_2 by done.
    cbn [tag_refs set_tag_refs]. split; [done|].
    rewrite Exists_exists. intros (r & Hr & Hb).
    apply list_elem_of_filter in Hr as [Hn _]. by apply Hn.
  - intros He. unfold toggled. rewrite bool_decide_eq_false_2 by done.
    cbn [tag_refs set_tag_refs]. eexists. split; [done|]. by split.
  - exists (bp_addrs bv), (bp_addrs (toggled (toggled bv a) a)).
    rewrite !get_bp_tags_registered by done.
    split; [done|]. split; [done|]. apply toggle_twice_same_addrs.
  - intros b Hab. rewrite get_bp_tags_registered by done. intros [= Hnil].
    assert (Hreg3 : registered (toggled (toggled bv a) b) "pwndbg-bp")
      by by apply toggled_registered.
    exists (toggled (toggled bv a) b), (toggled (toggled (toggled bv a) b) a).
    split; [by apply toggle_breakpoint_toggled|].
    split; [by apply toggle_breakpoint_toggled|].
    rewrite get_bp_tags_registered by by apply toggled_registered.
    f_equal. rewrite !bp_addrs_toggled, Hnil. cbn [bool_decide].
    rewrite (bool_decide_eq_false_2 (a ∈ [])) by apply not_elem_of_nil.
    cbn [app].
    rewrite (bool_decide_eq_false_2 (b ∈ [a]))
      by (rewrite list_elem_of_singleton; congruence).
    cbn [app].
    rewrite (bool_decide_eq_true_2 (a ∈ [a; b])) by left.
    rewrite filter_cons_False by (intros H; by apply H).
    rewrite filter_cons_True by congruence. done.
Qed.

Lemma example_view_registered_bp : registered example_view "pwndbg-bp".
Proof. exists "🔴". vm_compute. reflexivity. Defined.

Lemma example_view_registered_pc : registered example_view "pwndbg-pc".
Proof. exists "➡️". vm_compute. reflexivity. Defined.

Lemma toggle_breakpoint_spec_witness :
  registered example_view "pwndbg-bp" ∧
  ∃ bv1 bv2, toggle_breakpoint example_view 0x1000 = Ok bv1 ∧
             toggle_breakpoint bv1 0x1000 = Ok bv2.
Proof.
  split; [exact example_view_registered_bp|].
  destruct (toggle_breakpoint_spec example_view 0x1000 example_view_registered_bp)
    as (bv1 & bv2 & H1 & H2 & _).
  exists bv1, bv2. split; assumption.
Defined.

(** Without the tag type, [get_tag_type(...).handle] raises and the view
    stays as it is. *)
Lemma toggle_breakpoint_unregistered (bv : BinaryView) (a : Z) :
  tag_types bv !! "pwndbg-bp" = None →
  toggle_breakpoint bv a = Raise AttributeError.
Proof.
  intros Hno. unfold toggle_breakpoint, get_tag_refs, tag_type_handle.
  by rewrite Hno.
Qed.

(** A view with two breakpoint tags at one address: the first toggle
    removes both, the second makes one. *)
Example toggle_breakpoint_two_tags :
  let tag (n : nat) : TagRef :=
    {| ref_tag := n; ref_type := "pwndbg-bp"; ref_data := "GDB breakpoint";
       ref_addr := 0x1000; ref_auto := true |} in
  let bv := set_tag_refs example_view [tag 0%nat; tag 1%nat] 2 in
  ∃ bv1 bv2,
    toggle_breakpoint bv 0x1000 = Ok bv1 ∧ toggle_breakpoint bv1 0x1000 = Ok bv2 ∧
    ServerHandler.get_bp_tags bv = Ok [0x1000; 0x1000] ∧
    ServerHandler.get_bp_tags bv1 = Ok [] ∧
    ServerHandler.get_bp_tags bv2 = Ok [0x1000].
Proof. do 2 eexists. repeat split; reflexivity. Qed.

(** ** The PC tag *)

Lemma update_pc_tag_unregistered (bv : BinaryView) (a : Z) :
  tag_types bv !! "pwndbg-pc" = None →
  ServerHandler.update_pc_tag bv a = Raise AttributeError.
Proof.
  intros Hno.
  unfold ServerHandler.update_pc_tag, ServerHandler.clear_pc_tag, get_tag_refs,
    tag_type_handle.
  by rewrite Hno.
Qed.

Lemma clear_pc_tag_cleared (bv : BinaryView) :
  registered bv "pwndbg-pc" →
  ServerHandler.clear_pc_tag bv
  = Ok (set_tag_refs bv (filter (λ r, ref_type r ≠ "pwndbg-pc") (tag_refs bv))
          (next_tag bv)).
Proof.
  intros Hreg. unfold ServerHandler.clear_pc_tag.
  rewrite (get_tag_refs_registered _ _ Hreg). cbn [mbind result_bind].
  rewrite remove_all_refs. do 2 f_equal.
  apply filter_ext_in. intros x Hx. rewrite list_elem_of_filter. tauto.
Qed.

Lemma update_pc_tag_updated (bv : BinaryView) (a : Z) :
  registered bv "pwndbg-pc" →
  ServerHandler.update_pc_tag bv a
  = Ok (set_tag_refs bv
          (filter (λ r, ref_type r ≠ "pwndbg-pc") (tag_refs bv)
             ++ [new_tag bv a "pwndbg-pc" "current pc"])
          (S (next_tag bv))).
Proof.
  intros Hreg. unfold ServerHandler.update_pc_tag.
  rewrite (clear_pc_tag_cleared _ Hreg). cbn [mbind result_bind].
  by rewrite add_auto_tag_registered.
Qed.

Lemma pc_refs_after_update (l : list TagRef) (t : TagRef) :
  ref_type t = "pwndbg-pc" →
  filter (λ r, ref_type r = "pwndbg-pc")
    (filter (λ r, ref_type r ≠ "pwndbg-pc") l ++ [t]) = [t].
Proof.
  intros Ht. rewrite filter_app, list_filter_filter.
  rewrite (filter_cons_True _ t) by done. rewrite filter_nil.
  replace (filter _ l) with (@nil TagRef); [done|].
  symmetry. induction l as [|x l IH]; [done|].
  rewrite filter_cons_False; [done | tauto].
Qed.

(** C3: [update_pc_tag(a)] removes all the PC tags and then creates one PC
    tag at [a], leaving the tags of the other types alone: after it, and
    after a second call with the same [a], exactly one PC tag exists, and it
    is at [a]. *)
Theorem update_pc_tag_spec (bv : BinaryView) (a : Z) :
  registered bv "pwndbg-pc" →
  ∃ bv1 bv2 t1 t2,
    ServerHandler.update_pc_tag bv a = Ok bv1 ∧
    tag_refs bv1 = filter (λ r, ref_type r ≠ "pwndbg-pc") (tag_refs bv) ++ [t1] ∧
    get_tag_refs bv1 "pwndbg-pc" = Ok [t1] ∧ ref_addr t1 = a ∧
    ServerHandler.update_pc_tag bv1 a = Ok bv2 ∧
    get_tag_refs bv2 "pwndbg-pc" = Ok [t2] ∧ ref_addr t2 = a.
Proof.
  intros Hreg.
  pose proof (update_pc_tag_updated bv a Hreg) as H1.
  set (bv1 := set_tag_refs bv _ _) in H1.
  assert (Hreg1 : registered bv1 "pwndbg-pc") by done.
  pose proof (update_pc_tag_updated bv1 a Hreg1) as H2.
  set (bv2 := set_tag_refs bv1 _ _) in H2.
  assert (Hreg2 : registered bv2 "pwndbg-pc") by done.
  exists bv1, bv2, (new_tag bv a "pwndbg-pc" "current pc"),
    (new_tag bv1 a "pwndbg-pc" "current pc").
  repeat split; try done.
  - rewrite get_tag_refs_registered by done. f_equal.
    by apply pc_refs_after_update.
  - rewrite get_tag_refs_registered by done. f_equal.
    by apply pc_refs_after_update.
Qed.

Lemma update_pc_tag_spec_witness :
  registered example_view "pwndbg-pc" ∧
  ∃ bv1 t1, ServerHandler.update_pc_tag example_view 0x401000 = Ok bv1 ∧
            get_tag_refs bv1 "pwndbg-pc" = Ok [t1] ∧ ref_addr t1 = 0x401000.
Proof.
  split; [exact example_view_registered_pc|].
  destruct (update_pc_tag_spec example_view 0x401000 example_view_registered_pc)
    as (bv1 & bv2 & t1 & t2 & H1 & _ & H2 & H3 & _).
  exists bv1, t1. repeat split; assumption.
Defined.

(** ** No duplicate breakpoint addresses *)

Lemma toggled_NoDup (bv : BinaryView) (a : Z) :
  NoDup (bp_addrs bv) → NoDup (bp_addrs (toggled bv a)).
Proof.
  intros Hnd. rewrite bp_addrs_toggled. case_bool_decide as Hin.
  - by apply NoDup_filter.
  - apply NoDup_app. split; [done|]. split; [|apply NoDup_singleton].
    intros x Hx ->%list_elem_of_singleton. done.
Qed.

Lemma toggle_all_NoDup (addrs : list Z) (bv : BinaryView) :
  registered bv "pwndbg-bp" → NoDup (bp_addrs bv) →
  ∃ bv', toggle_all bv addrs = Ok bv' ∧ registered bv' "pwndbg-bp" ∧
         NoDup (bp_addrs bv').
Proof.
  revert bv. induction addrs as [|a rest IH]; intros bv Hreg Hnd.
  - by exists bv.
  - cbn [toggle_all]. rewrite toggle_breakpoint_toggled by done.
    cbn [mbind result_bind]. apply IH.
    + by apply toggled_registered.
    + by apply toggled_NoDup.
Qed.

(** C10: where every address carries at most one breakpoint tag,
    [toggle_breakpoint] keeps it so; hence after any run of toggles from a
    view without breakpoint tags, [get_bp_tags()] has no address twice. *)
Theorem toggle_breakpoint_no_duplicates (bv : BinaryView) (l0 : list Z) :
  ServerHandler.get_bp_tags bv = Ok l0 →
  (NoDup l0 →
     ∀ a, ∃ bv1 l1, toggle_breakpoint bv a = Ok bv1 ∧
                    ServerHandler.get_bp_tags bv1 = Ok l1 ∧ NoDup l1) ∧
  (l0 = [] →
     ∀ addrs, ∃ bv' l, toggle_all bv addrs = Ok bv' ∧
                       ServerHandler.get_bp_tags bv' = Ok l ∧ NoDup l).
Proof.
  intros Hget.
  assert (Hreg : registered bv "pwndbg-bp").
  { unfold ServerHandler.get_bp_tags, get_tag_refs, tag_type_handle in Hget.
    unfold registered. destruct (tag_types bv !! "pwndbg-bp"); [eauto|done]. }
  rewrite get_bp_tags_registered in Hget by done. injection Hget as <-.
  split.
  - intros Hnd a. exists (toggled bv a), (bp_addrs (toggled bv a)).
    split; [by apply toggle_breakpoint_toggled|].
    split; [apply get_bp_tags_registered; by apply toggled_registered|].
    by apply toggled_NoDup.
  - intros Hnil addrs.
    destruct (toggle_all_NoDup addrs bv Hreg) as (bv' & Hrun & Hreg' & Hnd).
    { rewrite Hnil. apply NoDup_nil_2. }
    exists bv', (bp_addrs bv'). split; [done|]. split; [|done].
    by apply get_bp_tags_registered.
Qed.

Lemma toggle_breakpoint_no_duplicates_witness :
  ServerHandler.get_bp_tags example_view = Ok [] ∧
  ∃ bv' l, toggle_all example_view [0x1000; 0x2000; 0x1000; 0x1000] = Ok bv' ∧
           ServerHandler.get_bp_tags bv' = Ok l ∧ NoDup l.
Proof.
  assert (H : ServerHandler.get_bp_tags example_view = Ok []) by reflexivity.
  split; [exact H|].
  exact (proj2 (toggle_breakpoint_no_duplicates example_view [] H) eq_refl
           [0x1000; 0x2000; 0x1000; 0x1000]).
Defined.

(** * Properties of the query layer *)

(** ** The widest function *)

Lemma min_by_start_elem (rest : list Function) (f0 : Function) :
  min_by_start f0 rest ∈ f0 :: rest.
Proof.
  unfold min_by_start. revert f0. induction rest as [|g rest IH]; intros f0.
  - left.
  - cbn [fold_left]. destruct (start g <? start f0).
    + right. apply IH.
    + specialize (IH f0). apply elem_of_cons in IH as [->|IH].
      * left.
      * right. by right.
Qed.

Lemma min_by_start_le_init (rest : list Function) (f0 : Function) :
  start (min_by_start f0 rest) ≤ start f0.
Proof.
  unfold min_by_start. revert f0. induction rest as [|g rest IH]; intros f0.
  - done.
  - cbn [fold_left]. destruct (Z.ltb_spec (start g) (start f0)) as [Hlt|Hge].
    + specialize (IH g). lia.
    + apply IH.
Qed.

Lemma min_by_start_least (rest : list Function) (f0 g : Function) :
  g ∈ f0 :: rest → start (min_by_start f0 rest) ≤ start g.
Proof.
  revert f0. induction rest as [|h rest IH]; intros f0 Hg.
  - apply list_elem_of_singleton in Hg as ->. done.
  - apply elem_of_cons in Hg as [->|Hg]; [apply min_by_start_le_init|].
    unfold min_by_start. cbn [fold_left].
    fold (min_by_start (if start h <? start f0 then h else f0) rest).
    destruct (Z.ltb_spec (start h) (start f0)) as [Hlt|Hge].
    + by apply IH.
    + apply elem_of_cons in Hg as [->|Hg].
      * pose proof (min_by_start_le_init rest f0). lia.
      * apply IH. by right.
Qed.

Lemma elem_of_get_functions_containing (bv : BinaryView) (addr : Z) (f : Function) :
  f ∈ get_functions_containing bv addr ↔ f ∈ functions bv ∧ contains f addr = true.
Proof. unfold get_functions_containing. rewrite list_elem_of_filter. tauto. Qed.

(** C4: [get_func_info(addr)] answers [None] exactly when no function
    contains [addr]; otherwise it answers the name and the start of a
    function that contains [addr] and whose start is the least among the
    functions that contain [addr]. With F1 and F2 as above, in either
    order, [get_func_info(0x1600)] answers F1. *)
Theorem get_func_info_spec (bv : BinaryView) (addr : Z) :
  (ServerHandler.get_func_info bv addr = None ↔
     ∀ f, f ∈ functions bv → contains f addr = false) ∧
  (∀ res, ServerHandler.get_func_info bv addr = Some res →
     ∃ f, f ∈ functions bv ∧ contains f addr = true ∧
          res = (symbol_full_name f, start f) ∧
          ∀ g, g ∈ functions bv → contains g addr = true → start f ≤ start g) ∧
  (functions bv = [F1; F2] ∨ functions bv = [F2; F1] →
     ServerHandler.get_func_info bv 0x1600 = Some ("F1", 0x1000)).
Proof.
  unfold ServerHandler.get_func_info, get_widest_func.
  split; [|split].
  - destruct (get_functions_containing bv addr) as [|f0 rest] eqn:Hfs.
    + split; [|done]. intros _ f Hf.
      destruct (contains f addr) eqn:Hc; [|done].
      assert (Hin : f ∈ get_functions_containing bv addr)
        by by apply elem_of_get_functions_containing.
      rewrite Hfs in Hin. by apply not_elem_of_nil in Hin.
    + split; [done|]. intros Hnone.
      assert (Hin : f0 ∈ get_functions_containing bv addr) by (rewrite Hfs; left).
      apply elem_of_get_functions_containing in Hin as [Hin Hc].
      rewrite (Hnone f0 Hin) in Hc. done.
  - intros res. destruct (get_functions_containing bv addr) as [|f0 rest] eqn:Hfs;
      [done|].
    intros [= <-]. exists (min_by_start f0 rest).
    pose proof (min_by_start_elem rest f0) as Hin. rewrite <- Hfs in Hin.
    apply elem_of_get_functions_containing in Hin as [Hin Hc].
    repeat split; try done.
    intros g Hg Hgc. apply min_by_start_least. rewrite <- Hfs.
    by apply elem_of_get_functions_containing.
  - unfold get_functions_containing. intros [-> | ->]; reflexivity.
Qed.

(** ** Function types *)

Lemma count_pointers_loop_spec (ty : Ty) (n : Z) :
  count_pointers_loop ty n = (leaf_type ty, n + Z.of_nat (pointer_depth ty)).
Proof.
  revert n. induction ty as [target IH|s]; intros n; cbn.
  - rewrite IH. f_equal. lia.
  - f_equal. lia.
Qed.

Lemma count_pointers_spec (ty : Ty) :
  count_pointers ty = (leaf_type ty, Z.of_nat (pointer_depth ty)).
Proof. unfold count_pointers. by rewrite count_pointers_loop_spec. Qed.

(** [n] pointer wrappers around a type named [s] are counted as [n]. *)
Lemma count_pointers_wrapped (n : nat) (s : string) :
  count_pointers (pointers_to n (OtherType s)) = (s, Z.of_nat n).
Proof.
  rewrite count_pointers_spec. induction n as [|n IH]; [done|].
  cbn [pointers_to leaf_type pointer_depth].
  injection IH as IH1 IH2. f_equal; [done|]. lia.
Qed.

Lemma get_function_at_None (bv : BinaryView) (addr : Z) :
  get_function_at bv addr = None ↔ ∀ f, f ∈ functions bv → start f ≠ addr.
Proof.
  unfold get_function_at. induction (functions bv) as [|g l IH]; cbn [find].
  - split; [|done]. intros _ f Hf. by apply not_elem_of_nil in Hf.
  - destruct (Z.eqb_spec (start g) addr) as [Heq|Hne].
    + split; [done|]. intros H. exfalso. apply (H g); [left|done].
    + rewrite IH. split.
      * intros H f [->|Hf]%elem_of_cons; [done|]. by apply H.
      * intros H f Hf. apply H. by right.
Qed.

Lemma get_function_at_Some (bv : BinaryView) (addr : Z) (f : Function) :
  get_function_at bv addr = Some f → f ∈ functions bv ∧ start f = addr.
Proof.
  unfold get_function_at. induction (functions bv) as [|g l IH]; cbn [find]; [done|].
  destruct (Z.eqb_spec (start g) addr) as [Heq|Hne].
  - intros [= <-]. split; [left|done].
  - intros H. destruct (IH H) as [Hin Hst]. split; [by right|done].
Qed.

(** C5: [get_func_type(addr)] answers [None] unless a function starts at
    [addr], also when [addr] lies inside a function; when one does, it
    answers, for a function that starts at [addr], the leaf type, the
    pointer count and the function name for the return type, and the leaf
    type, the pointer count and the parameter name for every parameter, in
    the order of the declaration. The pointer count is the number of
    pointer wrappers around the leaf type. *)
Theorem get_func_type_spec (bv : BinaryView) (addr : Z) :
  (ServerHandler.get_func_type bv addr = None ↔
     ∀ f, f ∈ functions bv → start f ≠ addr) ∧
  ((∃ g, g ∈ functions bv ∧ contains g addr = true) →
   (∀ f, f ∈ functions bv → start f ≠ addr) →
     ServerHandler.get_func_type bv addr = None) ∧
  ((∃ f, f ∈ functions bv ∧ start f = addr) →
     ∃ f, f ∈ functions bv ∧ start f = addr ∧
          ServerHandler.get_func_type bv addr = Some (func_type_of f)) ∧
  (∀ n s, count_pointers (pointers_to n (OtherType s)) = (s, Z.of_nat n)).
Proof.
  assert (Hnone : ServerHandler.get_func_type bv addr = None ↔
                  ∀ f, f ∈ functions bv → start f ≠ addr).
  { rewrite <- get_function_at_None. unfold ServerHandler.get_func_type.
    by destruct (get_function_at bv addr). }
  split; [done|]. split; [|split].
  - intros _ H. by apply Hnone.
  - intros (f & Hf & Hst).
    destruct (get_function_at bv addr) as [f'|] eqn:Hat.
    + exists f'. destruct (get_function_at_Some _ _ _ Hat) as [Hin' Hst'].
      split; [done|]. split; [done|].
      unfold ServerHandler.get_func_type, func_type_of. rewrite Hat.
      rewrite count_pointers_spec. do 2 f_equal.
      apply list_fmap_ext. intros i v _. by rewrite count_pointers_spec.
    + exfalso. by apply (proj1 (get_function_at_None bv addr) Hat f).
  - apply count_pointers_wrapped.
Qed.

(** An address inside F1 at which no function starts. *)
Example get_func_type_inside_body :
  let bv := {| handle := 1; bv_start := 0; tag_types := ∅; tag_refs := [];
               next_tag := 0; functions := [F1; F2]; bv_comments := ∅ |} in
  contains F1 0x1600 = true ∧
  ServerHandler.get_func_type bv 0x1600 = None ∧
  ServerHandler.get_func_type bv 0x1500 = Some (("void", 0, "F2"), []).
Proof. repeat split. Qed.

(** * The server life cycle *)

Lemma init_step_registers (b : BinaryView) (kv : string * string) :
  registered (ServerHandler.init_step b kv) kv.1.
Proof.
  unfold ServerHandler.init_step, registered.
  destruct (tag_types b !! kv.1) as [v|] eqn:Hkv.
  - rewrite Hkv. eauto.
  - cbn [create_tag_type set_tag_types tag_types]. rewrite lookup_insert_eq. eauto.
Qed.

Lemma init_step_keeps (b : BinaryView) (kv : string * string) (ty : string) :
  registered b ty → registered (ServerHandler.init_step b kv) ty.
Proof.
  unfold ServerHandler.init_step, registered. intros [v Hv].
  destruct (tag_types b !! kv.1) as [w|] eqn:Hkv; [eauto|].
  cbn [create_tag_type set_tag_types tag_types].
  destruct (decide (kv.1 = ty)) as [<-|Hne].
  - rewrite lookup_insert_eq. eauto.
  - rewrite lookup_insert_ne by done. eauto.
Qed.

Lemma init_registered (bv : BinaryView) :
  registered (ServerHandler.init bv) "pwndbg-pc" ∧
  registered (ServerHandler.init bv) "pwndbg-bp".
Proof.
  change (ServerHandler.init bv)
    with (ServerHandler.init_step (ServerHandler.init_step bv ("pwndbg-pc", "➡️")) ("pwndbg-bp", "🔴")).
  split.
  - apply init_step_keeps. apply (init_step_registers bv ("pwndbg-pc", "➡️")).
  - apply (init_step_registers _ ("pwndbg-bp", "🔴")).
Qed.

Lemma init_id (bv : BinaryView) :
  registered bv "pwndbg-pc" → registered bv "pwndbg-bp" →
  ServerHandler.init bv = bv.
Proof.
  intros [v Hv] [w Hw].
  unfold ServerHandler.init, ServerHandler.tag_types_wanted.
  cbn [fold_left]. unfold ServerHandler.init_step. cbn [fst snd]. by rewrite Hv, Hw.
Qed.

Lemma init_idempotent (bv : BinaryView) :
  ServerHandler.init (ServerHandler.init bv) = ServerHandler.init bv.
Proof. destruct (init_registered bv). by apply init_id. Qed.

(** C6: starting the server when it is started already changes nothing:
    not the view, which [init] has prepared at the first start, not the
    server, not the log. Stopping the server when it is not started changes
    nothing either. *)
Theorem start_stop_no_op (bv : BinaryView) (g : Globals) :
  (∀ port_free port_free' bv1 g1,
     start_server port_free bv g = (bv1, g1, None) →
     start_server port_free' bv1 g1 = (bv1, g1, None)) ∧
  (is_Some (server g) →
   registered bv "pwndbg-pc" → registered bv "pwndbg-bp" →
     ∀ port_free, start_server port_free bv g = (bv, g, None)) ∧
  (server g = None → stop_server bv g = (bv, g)).
Proof.
  split; [|split].
  - intros pf pf' bv1 g1. unfold start_server.
    destruct (server g) as [srv|] eqn:Hsrv.
    + intros [= <- <-]. by rewrite init_idempotent, Hsrv.
    + destruct pf; [|done]. intros [= <- <-]. by rewrite init_idempotent.
  - intros [srv Hsrv] Hpc Hbp pf. unfold start_server.
    by rewrite init_id, Hsrv.
  - intros Hnone. unfold stop_server. by rewrite Hnone.
Qed.

(** A first start on a fresh view, and a second start after it. *)
Lemma start_stop_no_op_witness :
  ∃ bv1 g1, start_server true empty_view globals0 = (bv1, g1, None) ∧
            is_Some (server g1) ∧
            start_server false bv1 g1 = (bv1, g1, None) ∧
            stop_server empty_view globals0 = (empty_view, globals0).
Proof.
  destruct (start_server true empty_view globals0) as [[bv1 g1] e] eqn:Hstart.
  injection Hstart as Hbv Hg He. subst e.
  exists bv1, g1. split; [reflexivity|].
  split; [subst g1; eexists; reflexivity|].
  split.
  - apply (proj1 (start_stop_no_op empty_view globals0) true false bv1 g1).
    by subst bv1 g1.
  - exact (proj2 (proj2 (start_stop_no_op empty_view globals0)) eq_refl).
Defined.

(** A start on another view while the server runs: the server and the
    log stay, and [init] gives the other view its tag types. *)
Example start_server_other_view :
  let other :=
    {| handle := 2; bv_start := 0; tag_types := ∅; tag_refs := [];
       next_tag := 0; functions := []; bv_comments := ∅ |} in
  ∃ bv1 g1 other',
    start_server true empty_view globals0 = (bv1, g1, None) ∧
    start_server true other g1 = (other', g1, None) ∧
    (srv_view <$> server g1) = Some 1%nat ∧
    other' = ServerHandler.init other ∧ other' ≠ other.
Proof.
  cbv zeta. do 3 eexists. split; [reflexivity|]. split; [reflexivity|].
  split; [reflexivity|]. split; [reflexivity|].
  intros Heq. apply (f_equal (λ b, tag_types b !! "pwndbg-pc")) in Heq.
  vm_compute in Heq. discriminate Heq.
Qed.

(** * Comments *)

(** ** Splitting into lines *)

Lemma split_not_nil (sep : Ascii.ascii) (s : string) : split sep s ≠ [].
Proof.
  destruct s as [|c s]; cbn [split]; [done|].
  destruct (Ascii.eqb c sep); [done|]. by destruct (split sep s).
Qed.

(** Joining the pieces with the separator gives the string back. *)
Lemma concat_split (sep : Ascii.ascii) (s : string) :
  String.concat (String sep EmptyString) (split sep s) = s.
Proof.
  induction s as [|c s IH]; [done|]. cbn [split].
  destruct (Ascii.eqb_spec c sep) as [->|Hne].
  - pose proof (split_not_nil sep s) as Hnil.
    destruct (split sep s) as [|p ps]; [done|].
    rewrite <- IH. reflexivity.
  - pose proof (split_not_nil sep s) as Hnil.
    destruct (split sep s) as [|p ps]; [done|].
    rewrite <- IH. by destruct ps.
Qed.

(** No piece has the separator. *)
Lemma split_no_sep (sep : Ascii.ascii) (s : string) :
  Forall (λ p, has_char sep p = false) (split sep s).
Proof.
  induction s as [|c s IH]; cbn [split]; [by repeat constructor|].
  destruct (Ascii.eqb c sep) eqn:Hc.
  - by constructor.
  - destruct (split sep s) as [|p ps].
    + repeat constructor. cbn [has_char]. by rewrite Hc.
    + inversion IH as [|? ? Hp Hps]; subst. constructor; [|done].
      cbn [has_char]. by rewrite Hc, Hp.
Qed.

(** The pieces of "a\nb\n" and of the empty string, as Python gives them. *)
Example split_examples :
  split newline ("a" +:+ nl +:+ "b" +:+ nl) = ["a"; "b"; ""] ∧
  split newline "" = [""] ∧
  split newline "ab" = ["ab"].
Proof. repeat split. Qed.

(** C7: [get_comments(addr)] takes the functions that contain [addr] in
    ascending order of their start (functions with equal starts in their
    given order), splits the comment of each at [addr], and then the
    comment of the view at [addr], into lines, drops the empty lines and
    puts the marker before every line left. Splitting gives the pieces
    between the newlines. The comment "a\nb\n" gives two entries. *)
Theorem get_comments_spec (bv : BinaryView) (addr : Z) :
  let fs := sorted start (get_functions_containing bv addr) in
  ServerHandler.get_comments bv addr
    = ((λ x, "// " +:+ x) <$> filter (λ x, x ≠ "") (raw_lines bv fs addr)) ∧
  fs ≡ₚ get_functions_containing bv addr ∧
  StronglySorted (key_le start) fs ∧
  (∀ k, filter (λ g, start g = k) fs
        = filter (λ g, start g = k) (get_functions_containing bv addr)) ∧
  (∀ s, String.concat nl (split newline s) = s ∧
        Forall (λ p, has_char newline p = false) (split newline s)) ∧
  (∀ e, e ∈ ServerHandler.get_comments bv addr →
        ∃ x, e = "// " +:+ x ∧ x ≠ "" ∧ has_char newline x = false) ∧
  (get_functions_containing bv addr = [] →
   bv_get_comment_at bv addr = "a" +:+ nl +:+ "b" +:+ nl →
     ServerHandler.get_comments bv addr = ["// a"; "// b"]).
Proof.
  intros fs.
  assert (Heq : ServerHandler.get_comments bv addr
            = ((λ x, "// " +:+ x) <$> filter (λ x, x ≠ "") (raw_lines bv fs addr))).
  { unfold ServerHandler.get_comments, raw_lines.
    by rewrite fold_left_app_concat, app_nil_l. }
  split; [done|].
  split; [apply sorted_perm|].
  split; [apply sorted_sorted|].
  split; [intros k; apply sorted_stable|].
  split; [intros s; split; [apply concat_split | apply split_no_sep]|].
  split.
  - intros e. rewrite Heq, list_elem_of_fmap.
    intros (x & -> & Hx). apply list_elem_of_filter in Hx as [Hne Hx].
    exists x. split; [done|]. split; [done|].
    unfold raw_lines in Hx. apply elem_of_app in Hx as [Hx|Hx].
    + apply list_elem_of_In, in_concat in Hx as (ps & Hps & Hx).
      apply list_elem_of_In, list_elem_of_fmap in Hps as (f & -> & _).
      pose proof (split_no_sep newline (func_get_comment_at f addr)) as Hall.
      rewrite Forall_forall in Hall. apply Hall. by apply list_elem_of_In.
    + pose proof (split_no_sep newline (bv_get_comment_at bv addr)) as Hall.
      rewrite Forall_forall in Hall. by apply Hall.
  - intros Hfs Hc. rewrite Heq. unfold raw_lines, fs. rewrite Hfs, Hc.
    reflexivity.
Qed.

(** F2 listed before F1, each with a comment at 0x1600, and a comment of
    the view: the comment of F1 comes first, the view's last, and the empty
    lines are gone. Where there is no comment, there is no entry. *)
Example get_comments_example :
  let with_comment (f : Function) (c : string) : Function :=
    {| start := start f; name := name f; symbol_full_name := symbol_full_name f;
       address_ranges := address_ranges f; func_comments := {[ 0x1600 := c ]};
       return_type := return_type f; parameter_vars := parameter_vars f |} in
  let bv :=
    {| handle := 1; bv_start := 0; tag_types := ∅; tag_refs := []; next_tag := 0;
       functions := [with_comment F2 ("inner" +:+ nl +:+ nl +:+ "loop");
                     with_comment F1 "outer"];
       bv_comments := {[ 0x1600 := "global" +:+ nl ]} |} in
  ServerHandler.get_comments bv 0x1600
  = ["// outer"; "// inner"; "// loop"; "// global"] ∧
  ServerHandler.get_comments bv 0x1000 = [] ∧
  ServerHandler.get_comments bv 0x3000 = [].
Proof. cbv zeta. split; [|split]; vm_compute; reflexivity. Qed.

(** * Address translation *)

(** C8: with the same bases, [to_runtime] after [to_static] gives the
    address back, and so does [to_static] after [to_runtime]. *)
Theorem translate_inverse (ctx : translate.TranslationContext) (x : Z) :
  translate.to_runtime ctx (translate.to_static ctx x) = x ∧
  translate.to_static ctx (translate.to_runtime ctx x) = x.
Proof. unfold translate.to_runtime, translate.to_static. lia. Qed.

(** * Properties of the event bus and the cache registry *)

Section CacheClearing.

Import events.

Lemma register_all (h : Handler) (p : Z) (evs : list Event) (bus : list Registration) :
  fold_left (λ bus e, register bus e h p) evs bus
  = bus ++ (registration p h <$> evs).
Proof.
  revert bus. induction evs as [|e evs IH]; intros bus; cbn [fold_left].
  - by rewrite app_nil_r.
  - rewrite IH. unfold register. by rewrite <- app_assoc.
Qed.

Lemma connect_clear_caching_events_app
    (event_dicts : list (string * list Event)) (p : Z) (bus : list Registration) :
  cache.connect_clear_caching_events event_dicts p bus
  = bus ++ clear_registrations event_dicts p.
Proof.
  unfold cache.connect_clear_caching_events, clear_registrations.
  revert bus. induction event_dicts as [|kv rest IH]; intros bus; cbn [fold_left].
  - by rewrite app_nil_r.
  - rewrite IH, register_all, bind_cons. by rewrite <- app_assoc.
Qed.

(** The clearing registrations of one event, by the table of [hooks.py]. *)
Lemma clear_registrations_of (p : Z) (e : Event) :
  filter (λ r, reg_event r = e) (clear_registrations hooks.clear_caching_events p)
  = (λ g, registration p (ClearCaches g) e) <$> hooks.groups_of e.
Proof. by destruct e. Qed.

Lemma forever_not_triggered (e : Event) : "forever" ∉ hooks.groups_of e.
Proof.
  destruct e; apply (bool_decide_unpack _); vm_compute; exact I.
Qed.

Lemma filter_feature_above_eq (cc : Z) (l : list Registration) :
  Forall (feature_above cc) l → filter (λ r, reg_priority r = cc) l = [].
Proof.
  induction 1 as [|r l [_ Hr] Hl IH]; [done|].
  rewrite filter_cons_False by lia. done.
Qed.

Lemma filter_feature_above_ne (cc : Z) (l : list Registration) :
  Forall (feature_above cc) l → filter (λ r, reg_priority r ≠ cc) l = l.
Proof.
  induction 1 as [|r l [_ Hr] Hl IH]; [done|].
  rewrite filter_cons_True by lia. by f_equal.
Qed.

Lemma Forall_filter_event (cc : Z) (e : Event) (l : list Registration) :
  Forall (feature_above cc) l →
  Forall (feature_above cc) (filter (λ r, reg_event r = e) l).
Proof.
  rewrite !Forall_forall. intros H r [_ Hr]%list_elem_of_filter. by apply H.
Qed.

(** The handlers of an event, where the features are registered above the
    priority of the cache clearing, before or after the clearing handlers:
    the clearing handlers of the groups of the event, then the features. *)
Lemma handlers_of_connected (cc : Z) (before after : list Registration) (e : Event) :
  Forall (feature_above cc) (before ++ after) →
  handlers_of
    (cache.connect_clear_caching_events hooks.clear_caching_events cc before ++ after) e
  = (ClearCaches <$> hooks.groups_of e)
    ++ (reg_handler <$>
          sorted reg_priority (filter (λ r, reg_event r = e) (before ++ after))).
Proof.
  intros [Hb Ha]%Forall_app. unfold handlers_of.
  rewrite connect_clear_caching_events_app, !filter_app, clear_registrations_of.
  set (fb := filter (λ r, reg_event r = e) before).
  set (fa := filter (λ r, reg_event r = e) after).
  set (cl := (λ g, registration cc (ClearCaches g) e) <$> hooks.groups_of e).
  assert (Hfb : Forall (feature_above cc) fb) by by apply Forall_filter_event.
  assert (Hfa : Forall (feature_above cc) fa) by by apply Forall_filter_event.
  assert (Hcl : Forall (λ r, reg_priority r = cc) cl).
  { apply Forall_forall. intros r (g & -> & _)%list_elem_of_fmap. done. }
  rewrite (sorted_least_first reg_priority cc).
  - rewrite !filter_app.
    rewrite (filter_feature_above_eq cc fb), (filter_feature_above_eq cc fa) by done.
    rewrite (filter_feature_above_ne cc fb), (filter_feature_above_ne cc fa) by done.
    rewrite (filter_all _ cl) by by apply Forall_forall.
    replace (filter (λ r, reg_priority r ≠ cc) cl) with (@nil Registration).
    + rewrite app_nil_l, !app_nil_r, fmap_app. f_equal.
      unfold cl. rewrite <- list_fmap_compose. done.
    + symmetry. clear -Hcl. induction Hcl as [|r l Hr _ IH]; [done|].
      rewrite filter_cons_False; [done|]. intros Hn. by apply Hn.
  - rewrite !Forall_app. repeat split.
    + eapply Forall_impl; [exact Hfb|]. intros r [_ Hr]. lia.
    + eapply Forall_impl; [exact Hcl|]. intros r Hr. cbn in Hr. lia.
    + eapply Forall_impl; [exact Hfa|]. intros r [_ Hr]. lia.
Qed.

Lemma caches_after_clearing (gs : list string) (s : State) :
  caches (run_handlers (ClearCaches <$> gs) s)
  = clear_if_subscribed gs <$> caches s.
Proof.
  unfold run_handlers. revert s. induction gs as [|g gs IH]; intros s.
  - cbn [fmap list_fmap fold_left]. symmetry. apply list_fmap_id.
  - rewrite fmap_cons. cbn [fold_left run_handler]. rewrite IH.
    cbn [clear_group caches]. rewrite <- list_fmap_compose.
    apply list_fmap_ext. intros i c _. cbn [compose]. unfold clear_if_subscribed.
    destruct (bool_decide_reflect (g ∈ groups c)) as [Hg|Hg].
    + cbn [cleared groups].
      rewrite (bool_decide_eq_true_2 (Exists _ (g :: gs))) by by apply Exists_cons_hd.
      by case_bool_decide.
    + apply (f_equal (λ b : bool, if b then cleared c else c)).
      apply bool_decide_ext. rewrite Exists_cons. tauto.
Qed.

Lemma observed_app (l1 l2 : list Handler) (s : State) :
  observed (l1 ++ l2) s = observed l1 s ++ observed l2 (run_handlers l1 s).
Proof.
  revert s. induction l1 as [|h l1 IH]; intros s; [done|].
  cbn [app observed]. by rewrite IH.
Qed.

Lemma observed_handler (l : list Handler) (s : State) (h : Handler) (s' : State) :
  (h, s') ∈ observed l s → h ∈ l.
Proof.
  revert s. induction l as [|k l IH]; intros s; cbn [observed].
  - intros H. by apply not_elem_of_nil in H.
  - intros [[= -> ->]|H]%elem_of_cons; [left|right; by eapply IH].
Qed.

Lemma observed_ran (l : list Handler) (s : State) (h : Handler) (s' : State) :
  (h, s') ∈ observed l s →
  ∃ ran rest, l = ran ++ h :: rest ∧ s' = run_handlers ran s.
Proof.
  revert s. induction l as [|k l IH]; intros s; cbn [observed].
  - intros H. by apply not_elem_of_nil in H.
  - intros [[= -> ->]|H]%elem_of_cons.
    + by exists [], l.
    + destruct (IH _ H) as (ran & rest & -> & ->). by exists (k :: ran), rest.
Qed.

Lemma caches_features_frame (fs : list Handler) (s : State) :
  Forall (λ h, ∀ s, caches (run_handler s h) = caches s) fs →
  caches (run_handlers fs s) = caches s.
Proof.
  unfold run_handlers. intros H. revert s.
  induction H as [|h fs Hh _ IH]; intros s; [done|].
  cbn [fold_left]. by rewrite IH, Hh.
Qed.

End CacheClearing.

(** C1: on every event, the clearing handlers that the cache registry
    registers at the reserved priority run before every other handler of
    the event, the others being registered above that priority, before or
    after the registry's call. So every other handler starts from the
    state the clearing left, changed only by the other handlers that ran
    before it: there, every cache subscribed to a group of the event is
    cleared, also one subscribed to "stop" on the stop event, and a cache
    subscribed to "forever" alone is as it was. *)
Theorem cache_clearing_runs_first (cc : Z) (before after : list events.Registration)
    (e : events.Event) (s : events.State) :
  Forall (feature_above cc) (before ++ after) →
  let bus :=
    cache.connect_clear_caching_events hooks.clear_caching_events cc before ++ after in
  let s1 := events.run_handlers (events.ClearCaches <$> hooks.groups_of e) s in
  ∃ fs,
    events.handlers_of bus e = (events.ClearCaches <$> hooks.groups_of e) ++ fs ∧
    Forall events.is_feature fs ∧
    (∀ h s', (h, s') ∈ events.observed (events.handlers_of bus e) s →
       events.is_feature h →
       ∃ ran rest, fs = ran ++ h :: rest ∧ s' = events.run_handlers ran s1) ∧
    (∀ i c, events.caches s !! i = Some c →
       ((∃ g, g ∈ events.groups c ∧ g ∈ hooks.groups_of e) →
          events.caches s1 !! i = Some (events.cleared c)) ∧
       (e = events.stop → "stop" ∈ events.groups c →
          events.caches s1 !! i = Some (events.cleared c)) ∧
       (events.groups c = ["forever"] → events.caches s1 !! i = Some c)) ∧
    (Forall (λ h, ∀ s, events.caches (events.run_handler s h) = events.caches s) fs →
       (∀ h s', (h, s') ∈ events.observed (events.handlers_of bus e) s →
          events.is_feature h → events.caches s' = events.caches s1) ∧
       events.caches (events.dispatch bus e s) = events.caches s1).
Proof.
  intros Hfe bus s1.
  set (fs := events.reg_handler <$>
               sorted events.reg_priority
                 (filter (λ r, events.reg_event r = e) (before ++ after))).
  assert (Hhs : events.handlers_of bus e
                = (events.ClearCaches <$> hooks.groups_of e) ++ fs)
    by by apply handlers_of_connected.
  assert (Hfs : Forall events.is_feature fs).
  { apply Forall_forall. intros h (r & -> & Hr)%list_elem_of_fmap.
    rewrite sorted_perm in Hr. apply list_elem_of_filter in Hr as [_ Hr].
    rewrite Forall_forall in Hfe. by destruct (Hfe r Hr). }
  assert (Hobs : ∀ h s', (h, s') ∈ events.observed (events.handlers_of bus e) s →
                 events.is_feature h →
                 ∃ ran rest, fs = ran ++ h :: rest ∧ s' = events.run_handlers ran s1).
  { intros h s'. rewrite Hhs, observed_app. intros [Hin|Hin]%elem_of_app Hh.
    - apply observed_handler in Hin. apply list_elem_of_fmap in Hin as (g & -> & _).
      done.
    - by apply observed_ran. }
  assert (Hcl : ∀ i c, events.caches s !! i = Some c →
                events.caches s1 !! i = Some (clear_if_subscribed (hooks.groups_of e) c)).
  { intros i c Hc. unfold s1. rewrite caches_after_clearing, list_lookup_fmap, Hc.
    done. }
  exists fs. split; [done|]. split; [done|]. split; [done|]. split.
  - intros i c Hc. rewrite (Hcl i c Hc). unfold clear_if_subscribed.
    split; [|split].
    + intros (g & Hg & Hge). rewrite bool_decide_eq_true_2; [done|].
      apply Exists_exists. eauto.
    + intros -> Hstop. rewrite bool_decide_eq_true_2; [done|].
      apply Exists_exists. exists "stop". split; [left|done].
    + intros Hgs. rewrite bool_decide_eq_false_2; [done|].
      rewrite Exists_exists, Hgs. intros (g & Hge & ->%list_elem_of_singleton).
      by apply (forever_not_triggered e).
  - intros Hframe. split.
    + intros h s' Hin Hh. destruct (Hobs h s' Hin Hh) as (ran & rest & Heq & ->).
      apply caches_features_frame. rewrite Heq in Hframe.
      by apply Forall_app in Hframe as [? _].
    + unfold events.dispatch. rewrite Hhs. unfold events.run_handlers.
      rewrite fold_left_app. by apply caches_features_frame.
Qed.

(** ** An instance: the handlers of [hooks.py] with priorities 0 and 1 *)

Lemma example_features_above : Forall (feature_above 0) (example_features ++ []).
Proof. repeat (constructor; [split; [exact I | reflexivity]|]). constructor. Defined.

Lemma cache_clearing_runs_first_witness :
  Forall (feature_above 0) (example_features ++ []) ∧
  ∃ fs, events.handlers_of (example_bus ++ []) events.stop
        = (events.ClearCaches <$> hooks.groups_of events.stop) ++ fs ∧
        Forall events.is_feature fs.
Proof.
  split; [exact example_features_above|].
  destruct (cache_clearing_runs_first 0 example_features [] events.stop example_state
              example_features_above) as (fs & Hhs & Hfs & _).
  exists fs. split; [exact Hhs | exact Hfs].
Defined.

(** The stop event on the example: the clearing handler, then the three
    features in the order of [hooks.py]; the cache of group "stop" is
    emptied and the one of group "forever" is kept. *)
Example example_stop_dispatch :
  events.handlers_of example_bus events.stop
  = [events.ClearCaches "stop";
     hooks.update_typeinfo quiet; hooks.update_arch quiet; hooks.on_stop quiet] ∧
  events.contents <$> events.caches (events.dispatch example_bus events.stop example_state)
  = [∅; {[ 3 := 4 ]}].
Proof. split; reflexivity. Qed.

(** C9: the table of [hooks.py] has exactly the eight groups, each with
    its events: "stop" with stop, memory changed and register changed;
    "exit" with exit; "objfile" with new object file; "start" with start;
    "cont" with continue, memory changed and register changed; "thread"
    with thread; "prompt" with before prompt; "forever" with none. So no
    event triggers "forever", and no event's clearing handlers change a
    cache subscribed to "forever" alone. *)
Theorem clear_caching_events_wiring :
  hooks.events_of "stop" = Some [events.stop; events.mem_changed; events.reg_changed] ∧
  hooks.events_of "exit" = Some [events.exit] ∧
  hooks.events_of "objfile" = Some [events.new_objfile] ∧
  hooks.events_of "start" = Some [events.start] ∧
  hooks.events_of "cont" = Some [events.cont; events.mem_changed; events.reg_changed] ∧
  hooks.events_of "thread" = Some [events.thread] ∧
  hooks.events_of "prompt" = Some [events.before_prompt] ∧
  hooks.events_of "forever" = Some [] ∧
  (∀ g, is_Some (hooks.events_of g) →
        g ∈ ["stop"; "exit"; "objfile"; "start"; "cont"; "thread"; "prompt"; "forever"]) ∧
  NoDup (fst <$> hooks.clear_caching_events) ∧
  (∀ e, "forever" ∉ hooks.groups_of e) ∧
  (∀ cc e s i c,
     events.caches s !! i = Some c → events.groups c = ["forever"] →
     events.caches
       (events.dispatch
          (cache.connect_clear_caching_events hooks.clear_caching_events cc []) e s)
       !! i = Some c).
Proof.
  do 8 (split; [reflexivity|]).
  split; [|split; [|split]].
  - intros g [evs Hg]. unfold hooks.events_of, hooks.clear_caching_events in Hg.
    cbn [find fst] in Hg.
    repeat match type of Hg with
           | context [String.eqb ?a g] =>
               destruct (String.eqb_spec a g) as [<-|_];
               [apply (bool_decide_unpack _); vm_compute; exact I|]
           end.
    discriminate Hg.
  - apply (bool_decide_unpack _). vm_compute. exact I.
  - apply forever_not_triggered.
  - intros cc e s i c Hc Hgs. unfold events.dispatch.
    pose proof (handlers_of_connected cc [] [] e (Forall_nil_2 _)) as Hhs.
    rewrite app_nil_r in Hhs. rewrite Hhs. cbn [app filter sorted foldr fmap list_fmap].
    rewrite app_nil_r, caches_after_clearing, list_lookup_fmap, Hc.
    cbn [fmap option_fmap option_map]. f_equal. unfold clear_if_subscribed.
    rewrite bool_decide_eq_false_2; [done|].
    rewrite Exists_exists, Hgs. intros (g & Hge & ->%list_elem_of_singleton).
    by apply (forever_not_triggered e).
Qed.


(** * More on the tag synchronizer *)

Lemma get_tag_refs_Ok_registered (bv : BinaryView) (ty : string) (l : list TagRef) :
  get_tag_refs bv ty = Ok l → registered bv ty.
Proof.
  unfold get_tag_refs, tag_type_handle, registered.
  destruct (tag_types bv !! ty); [eauto|done].
Qed.

Lemma toggle_breakpoint_Ok_registered (bv bv1 : BinaryView) (a : Z) :
  toggle_breakpoint bv a = Ok bv1 → registered bv "pwndbg-bp".
Proof.
  unfold toggle_breakpoint, get_tag_refs, tag_type_handle, registered.
  destruct (tag_types bv !! "pwndbg-bp"); [eauto|done].
Qed.

Lemma update_pc_tag_Ok_registered (bv bv1 : BinaryView) (a : Z) :
  ServerHandler.update_pc_tag bv a = Ok bv1 → registered bv "pwndbg-pc".
Proof.
  unfold ServerHandler.update_pc_tag, ServerHandler.clear_pc_tag, get_tag_refs,
    tag_type_handle, registered.
  destruct (tag_types bv !! "pwndbg-pc"); [eauto|done].
Qed.

Lemma clear_pc_tag_Ok_registered (bv bv1 : BinaryView) :
  ServerHandler.clear_pc_tag bv = Ok bv1 → registered bv "pwndbg-pc".
Proof.
  unfold ServerHandler.clear_pc_tag, get_tag_refs, tag_type_handle, registered.
  destruct (tag_types bv !! "pwndbg-pc"); [eauto|done].
Qed.

(** Where an address is after one toggle. *)
Lemma elem_of_bp_addrs_toggled (bv : BinaryView) (a x : Z) :
  x ∈ bp_addrs (toggled bv a)
  ↔ if decide (x = a) then x ∉ bp_addrs bv else x ∈ bp_addrs bv.
Proof.
  rewrite bp_addrs_toggled.
  destruct (bool_decide_reflect (a ∈ bp_addrs bv)) as [Hin|Hin].
  - rewrite list_elem_of_filter. destruct (decide (x = a)) as [->|Hne]; tauto.
  - rewrite elem_of_app, list_elem_of_singleton.
    destruct (decide (x = a)) as [->|Hne]; tauto.
Qed.

Lemma toggle_all_toggled (addrs : list Z) (bv : BinaryView) :
  registered bv "pwndbg-bp" →
  toggle_all bv addrs = Ok (fold_left toggled addrs bv) ∧
  registered (fold_left toggled addrs bv) "pwndbg-bp".
Proof.
  revert bv. induction addrs as [|a rest IH]; intros bv Hreg; [done|].
  cbn [toggle_all fold_left]. rewrite toggle_breakpoint_toggled by done.
  cbn [mbind result_bind]. apply IH. by apply toggled_registered.
Qed.

Lemma elem_of_bp_addrs_toggled_all (addrs : list Z) (bv : BinaryView) (x : Z) :
  x ∈ bp_addrs (fold_left toggled addrs bv)
  ↔ if Nat.odd (occurrences x addrs) then x ∉ bp_addrs bv else x ∈ bp_addrs bv.
Proof.
  revert bv. induction addrs as [|a rest IH]; intros bv; [done|].
  cbn [fold_left]. rewrite IH.
  pose proof (elem_of_bp_addrs_toggled bv a x) as Hstep.
  unfold occurrences. rewrite filter_cons.
  destruct (decide (a = x)) as [->|Hne].
  - rewrite decide_True in Hstep by done. cbn [length].
    rewrite Nat.odd_succ, <- Nat.negb_odd.
    destruct (Nat.odd _); cbn [negb]; [|done].
    rewrite Hstep. split; [|tauto].
    intros Hnn. by destruct (decide (x ∈ bp_addrs bv)).
  - rewrite decide_False in Hstep by congruence.
    destruct (Nat.odd _); by rewrite Hstep.
Qed.

(** X1: after any run of toggles on a view with the breakpoint tag type,
    an address carries a breakpoint tag exactly when it carried one before
    and was toggled an even number of times, or carried none and was
    toggled an odd number of times. *)
Theorem toggle_all_parity (bv : BinaryView) (addrs : list Z) :
  registered bv "pwndbg-bp" →
  ∃ bv' l0 l,
    toggle_all bv addrs = Ok bv' ∧
    ServerHandler.get_bp_tags bv = Ok l0 ∧
    ServerHandler.get_bp_tags bv' = Ok l ∧
    ∀ x, x ∈ l ↔ if Nat.odd (occurrences x addrs) then x ∉ l0 else x ∈ l0.
Proof.
  intros Hreg. destruct (toggle_all_toggled addrs bv Hreg) as [Hrun Hreg'].
  exists (fold_left toggled addrs bv), (bp_addrs bv),
    (bp_addrs (fold_left toggled addrs bv)).
  split; [done|]. split; [by apply get_bp_tags_registered|].
  split; [by apply get_bp_tags_registered|].
  intros x. apply elem_of_bp_addrs_toggled_all.
Qed.

Lemma toggle_all_parity_witness :
  registered example_view "pwndbg-bp" ∧
  ∃ bv' l, toggle_all example_view [0x10; 0x20; 0x10; 0x30; 0x20; 0x20] = Ok bv' ∧
           ServerHandler.get_bp_tags bv' = Ok l ∧
           (0x20 ∈ l ↔ 0x20 ∉ []).
Proof.
  split; [exact example_view_registered_bp|].
  destruct (toggle_all_parity example_view [0x10; 0x20; 0x10; 0x30; 0x20; 0x20]
              example_view_registered_bp) as (bv' & l0 & l & Hrun & Hl0 & Hl & Hx).
  exists bv', l. split; [exact Hrun|]. split; [exact Hl|].
  injection Hl0 as <-. exact (Hx 0x20).
Defined.

Lemma filter_bp_keeps_no_pc (l : list TagRef) :
  filter (λ r, ref_type r = "pwndbg-bp") (filter (λ r, ref_type r ≠ "pwndbg-pc") l)
  = filter (λ r, ref_type r = "pwndbg-bp") l.
Proof.
  rewrite list_filter_filter. apply list_filter_iff. intros r.
  split; [tauto|]. intros Hr. split; [done|]. rewrite Hr. done.
Qed.

Lemma get_bp_tags_same_refs (bv bv1 : BinaryView) :
  tag_types bv1 = tag_types bv →
  filter (λ r, ref_type r = "pwndbg-bp") (tag_refs bv1)
  = filter (λ r, ref_type r = "pwndbg-bp") (tag_refs bv) →
  ServerHandler.get_bp_tags bv1 = ServerHandler.get_bp_tags bv.
Proof.
  intros Htt Hrefs.
  unfold ServerHandler.get_bp_tags, get_tag_refs, tag_type_handle.
  rewrite Htt. destruct (tag_types bv !! "pwndbg-bp"); [|done].
  cbn [mbind result_bind]. by rewrite Hrefs.
Qed.

(** X2: the two kinds of tags do not disturb each other. [update_pc_tag]
    and [clear_pc_tag] leave the answer of [get_bp_tags] as it was, and
    [toggle_breakpoint] leaves the PC tag references as they were. *)
Theorem pc_and_breakpoint_tags_independent (bv : BinaryView) (a : Z) :
  (∀ bv1, ServerHandler.update_pc_tag bv a = Ok bv1 →
          ServerHandler.get_bp_tags bv1 = ServerHandler.get_bp_tags bv) ∧
  (∀ bv1, ServerHandler.clear_pc_tag bv = Ok bv1 →
          ServerHandler.get_bp_tags bv1 = ServerHandler.get_bp_tags bv) ∧
  (∀ bv1, toggle_breakpoint bv a = Ok bv1 →
          get_tag_refs bv1 "pwndbg-pc" = get_tag_refs bv "pwndbg-pc").
Proof.
  split; [|split]; intros bv1 Hrun.
  - pose proof (update_pc_tag_Ok_registered _ _ _ Hrun) as Hreg.
    rewrite (update_pc_tag_updated bv a Hreg) in Hrun. injection Hrun as <-.
    apply get_bp_tags_same_refs; [done|]. cbn [tag_refs set_tag_refs].
    rewrite filter_app, filter_bp_keeps_no_pc.
    rewrite (filter_cons_False _ (new_tag _ _ _ _)) by done.
    by rewrite filter_nil, app_nil_r.
  - pose proof (clear_pc_tag_Ok_registered _ _ Hrun) as Hreg.
    rewrite (clear_pc_tag_cleared bv Hreg) in Hrun. injection Hrun as <-.
    apply get_bp_tags_same_refs; [done|]. cbn [tag_refs set_tag_refs].
    apply filter_bp_keeps_no_pc.
  - pose proof (toggle_breakpoint_Ok_registered _ _ _ Hrun) as Hreg.
    rewrite (toggle_breakpoint_toggled bv a Hreg) in Hrun. injection Hrun as <-.
    unfold get_tag_refs, tag_type_handle.
    replace (tag_types (toggled bv a)) with (tag_types bv)
      by (unfold toggled; by case_bool_decide).
    destruct (tag_types bv !! "pwndbg-pc"); [|done].
    cbn [mbind result_bind]. f_equal.
    pose proof (toggled_other_types bv a) as Hother.
    apply (f_equal (filter (λ r, ref_type r = "pwndbg-pc"))) in Hother.
    rewrite !list_filter_filter in Hother.
    erewrite (list_filter_iff _ (λ r, ref_type r = "pwndbg-pc")) in Hother.
    + erewrite (list_filter_iff _ (λ r, ref_type r = "pwndbg-pc") (tag_refs bv))
        in Hother; [exact Hother|].
      intros r. split; [tauto|]. intros Hr. split; [done|]. by rewrite Hr.
    + intros r. split; [tauto|]. intros Hr. split; [done|]. by rewrite Hr.
Qed.

Lemma filter_pc_of_no_pc (l : list TagRef) :
  filter (λ r, ref_type r = "pwndbg-pc") (filter (λ r, ref_type r ≠ "pwndbg-pc") l)
  = [].
Proof.
  rewrite list_filter_filter. induction l as [|r l IH]; [done|].
  rewrite filter_cons_False; [done | tauto].
Qed.

(** X3: [clear_pc_tag] removes the PC tags and nothing else: after it no
    PC tag is left and the other tags are there in their order; a second
    call changes nothing, and a call on a view without PC tags changes
    nothing. *)
Theorem clear_pc_tag_spec (bv bv1 : BinaryView) :
  ServerHandler.clear_pc_tag bv = Ok bv1 →
  get_tag_refs bv1 "pwndbg-pc" = Ok [] ∧
  tag_refs bv1 = filter (λ r, ref_type r ≠ "pwndbg-pc") (tag_refs bv) ∧
  ServerHandler.clear_pc_tag bv1 = Ok bv1 ∧
  (get_tag_refs bv "pwndbg-pc" = Ok [] → bv1 = bv).
Proof.
  intros Hrun. pose proof (clear_pc_tag_Ok_registered _ _ Hrun) as Hreg.
  rewrite (clear_pc_tag_cleared bv Hreg) in Hrun. injection Hrun as <-.
  set (bv1 := set_tag_refs bv _ _).
  assert (Hreg1 : registered bv1 "pwndbg-pc") by done.
  assert (Hnone : filter (λ r, ref_type r = "pwndbg-pc") (tag_refs bv1) = []).
  { unfold bv1. cbn [tag_refs set_tag_refs]. apply filter_pc_of_no_pc. }
  split; [|split; [|split]].
  - rewrite get_tag_refs_registered by done. by rewrite Hnone.
  - done.
  - rewrite clear_pc_tag_cleared by done. f_equal.
    transitivity (set_tag_refs bv1 (tag_refs bv1) (next_tag bv1));
      [|apply set_tag_refs_id].
    f_equal. apply filter_all. intros r Hr Hpc.
    assert (Hin : r ∈ filter (λ r, ref_type r = "pwndbg-pc") (tag_refs bv1))
      by by apply list_elem_of_filter.
    rewrite Hnone in Hin. by apply not_elem_of_nil in Hin.
  - rewrite get_tag_refs_registered by done. intros [= Hnil].
    transitivity (set_tag_refs bv (tag_refs bv) (next_tag bv));
      [|apply set_tag_refs_id].
    unfold bv1. f_equal. apply filter_all. intros r Hr Hpc.
    assert (Hin : r ∈ filter (λ r, ref_type r = "pwndbg-pc") (tag_refs bv))
      by by apply list_elem_of_filter.
    rewrite Hnil in Hin. by apply not_elem_of_nil in Hin.
Qed.

Lemma clear_pc_tag_spec_witness :
  ∃ bv0 bv1, ServerHandler.update_pc_tag example_view 0x401000 = Ok bv0 ∧
             ServerHandler.clear_pc_tag bv0 = Ok bv1 ∧
             get_tag_refs bv1 "pwndbg-pc" = Ok [] ∧
             ServerHandler.clear_pc_tag bv1 = Ok bv1.
Proof.
  destruct (ServerHandler.update_pc_tag example_view 0x401000) as [bv0|e] eqn:H0;
    [|discriminate H0].
  destruct (ServerHandler.clear_pc_tag bv0) as [bv1|e] eqn:H1;
    [|injection H0 as <-; discriminate H1].
  exists bv0, bv1. split; [reflexivity|]. split; [exact H1|].
  destruct (clear_pc_tag_spec bv0 bv1 H1) as (Ha & _ & Hc & _).
  split; [exact Ha | exact Hc].
Defined.

(** X4: each tag operation succeeds exactly when the tag type it reads
    exists in the view, and raises [AttributeError] otherwise:
    [toggle_breakpoint] and [get_bp_tags] need "pwndbg-bp",
    [clear_pc_tag] and [update_pc_tag] need "pwndbg-pc" only. *)
Theorem tag_operations_need_their_type (bv : BinaryView) (a : Z) :
  ((∃ bv1, toggle_breakpoint bv a = Ok bv1) ↔ registered bv "pwndbg-bp") ∧
  ((∃ l, ServerHandler.get_bp_tags bv = Ok l) ↔ registered bv "pwndbg-bp") ∧
  ((∃ bv1, ServerHandler.clear_pc_tag bv = Ok bv1) ↔ registered bv "pwndbg-pc") ∧
  ((∃ bv1, ServerHandler.update_pc_tag bv a = Ok bv1) ↔ registered bv "pwndbg-pc") ∧
  (¬ registered bv "pwndbg-bp" →
     toggle_breakpoint bv a = Raise AttributeError ∧
     ServerHandler.get_bp_tags bv = Raise AttributeError) ∧
  (¬ registered bv "pwndbg-pc" →
     ServerHandler.clear_pc_tag bv = Raise AttributeError ∧
     ServerHandler.update_pc_tag bv a = Raise AttributeError).
Proof.
  assert (Hno : ∀ ty, ¬ registered bv ty → tag_types bv !! ty = None).
  { intros ty Hn. unfold registered in Hn.
    destruct (tag_types bv !! ty) eqn:Hty; [|done]. exfalso. apply Hn. eauto. }
  repeat split.
  - intros [bv1 H]. by eapply toggle_breakpoint_Ok_registered.
  - intros Hreg. eexists. by apply toggle_breakpoint_toggled.
  - intros [l H]. unfold ServerHandler.get_bp_tags in H.
    destruct (get_tag_refs bv "pwndbg-bp") as [refs|e] eqn:Hrefs; [|done].
    by eapply get_tag_refs_Ok_registered.
  - intros Hreg. eexists. by apply get_bp_tags_registered.
  - intros [bv1 H]. by eapply clear_pc_tag_Ok_registered.
  - intros Hreg. eexists. by apply clear_pc_tag_cleared.
  - intros [bv1 H]. by eapply update_pc_tag_Ok_registered.
  - intros Hreg. eexists. by apply update_pc_tag_updated.
  - by apply toggle_breakpoint_unregistered, Hno.
  - unfold ServerHandler.get_bp_tags, get_tag_refs, tag_type_handle.
    by rewrite Hno.
  - unfold ServerHandler.clear_pc_tag, get_tag_refs, tag_type_handle.
    by rewrite Hno.
  - by apply update_pc_tag_unregistered, Hno.
Qed.

Lemma run_op_keeps_registered (bv bv1 : BinaryView) (op : TagOp) (ty : string) :
  run_op bv op = Ok bv1 → registered bv ty → registered bv1 ty.
Proof.
  destruct op as [|new_pc|addr|]; cbn [run_op]; intros Hrun Hty.
  - pose proof (clear_pc_tag_Ok_registered _ _ Hrun) as Hreg.
    rewrite (clear_pc_tag_cleared bv Hreg) in Hrun. by injection Hrun as <-.
  - pose proof (update_pc_tag_Ok_registered _ _ _ Hrun) as Hreg.
    rewrite (update_pc_tag_updated bv new_pc Hreg) in Hrun. by injection Hrun as <-.
  - pose proof (toggle_breakpoint_Ok_registered _ _ _ Hrun) as Hreg.
    rewrite (toggle_breakpoint_toggled bv addr Hreg) in Hrun. injection Hrun as <-.
    by apply toggled_registered.
  - injection Hrun as <-.
    change (ServerHandler.init bv)
      with (ServerHandler.init_step
              (ServerHandler.init_step bv ("pwndbg-pc", "➡️")) ("pwndbg-bp", "🔴")).
    by do 2 apply init_step_keeps.
Qed.

Lemma run_op_registered (bv : BinaryView) (op : TagOp) :
  registered bv "pwndbg-pc" → registered bv "pwndbg-bp" →
  ∃ bv1, run_op bv op = Ok bv1.
Proof.
  intros Hpc Hbp. destruct op as [|new_pc|addr|]; cbn [run_op]; eexists.
  - by apply clear_pc_tag_cleared.
  - by apply update_pc_tag_updated.
  - by apply toggle_breakpoint_toggled.
  - done.
Qed.

Lemma run_ops_registered (ops : list TagOp) (bv : BinaryView) :
  registered bv "pwndbg-pc" → registered bv "pwndbg-bp" →
  ∃ bv', run_ops bv ops = Ok bv' ∧
         registered bv' "pwndbg-pc" ∧ registered bv' "pwndbg-bp".
Proof.
  revert bv. induction ops as [|op rest IH]; intros bv Hpc Hbp.
  - by exists bv.
  - cbn [run_ops]. destruct (run_op_registered bv op Hpc Hbp) as [bv1 Hop].
    rewrite Hop. cbn [mbind result_bind].
    apply IH; by eapply run_op_keeps_registered.
Qed.

(** X5: once [init] has run on a view, no run of tag operations
    ([clear_pc_tag], [update_pc_tag], [toggle_breakpoint], [init] again)
    raises, whatever the view held before, and [get_bp_tags] answers after
    it: no operation removes a tag type. *)
Theorem tag_operations_total_after_init (bv : BinaryView) (ops : list TagOp) :
  ∃ bv' l, run_ops bv (OpInit :: ops) = Ok bv' ∧
           ServerHandler.get_bp_tags bv' = Ok l ∧
           registered bv' "pwndbg-pc" ∧ registered bv' "pwndbg-bp".
Proof.
  cbn [run_ops run_op mbind result_bind].
  destruct (init_registered bv) as [Hpc Hbp].
  destruct (run_ops_registered ops (ServerHandler.init bv) Hpc Hbp)
    as (bv' & Hrun & Hpc' & Hbp').
  exists bv', (bp_addrs bv'). split; [done|].
  split; [by apply get_bp_tags_registered|done].
Qed.

(** X6: [init] only adds: a tag type the view has keeps its icon, the two
    tag types of the plugin are there afterwards, no other name is added,
    the tags and the rest of the view stay, and a second [init] changes
    nothing. *)
Theorem init_only_adds (bv : BinaryView) :
  (∀ k v, tag_types bv !! k = Some v → tag_types (ServerHandler.init bv) !! k = Some v) ∧
  (∀ k, k ≠ "pwndbg-pc" → k ≠ "pwndbg-bp" →
        tag_types (ServerHandler.init bv) !! k = tag_types bv !! k) ∧
  registered (ServerHandler.init bv) "pwndbg-pc" ∧
  registered (ServerHandler.init bv) "pwndbg-bp" ∧
  ServerHandler.init bv = set_tag_types bv (tag_types (ServerHandler.init bv)) ∧
  ServerHandler.init (ServerHandler.init bv) = ServerHandler.init bv.
Proof.
  assert (Hstep_keep : ∀ b kv k v,
            tag_types b !! k = Some v →
            tag_types (ServerHandler.init_step b kv) !! k = Some v).
  { intros b kv k v Hk. unfold ServerHandler.init_step.
    destruct (tag_types b !! kv.1) eqn:Hkv; [done|].
    cbn [create_tag_type set_tag_types tag_types].
    rewrite lookup_insert_ne; [done|]. intros Heq. congruence. }
  assert (Hstep_other : ∀ b kv k,
            k ≠ kv.1 →
            tag_types (ServerHandler.init_step b kv) !! k = tag_types b !! k).
  { intros b kv k Hne. unfold ServerHandler.init_step.
    destruct (tag_types b !! kv.1) eqn:Hkv; [done|].
    cbn [create_tag_type set_tag_types tag_types]. by rewrite lookup_insert_ne. }
  assert (Hstep_set : ∀ b kv,
            ServerHandler.init_step b kv
            = set_tag_types b (tag_types (ServerHandler.init_step b kv))).
  { intros b kv. unfold ServerHandler.init_step.
    destruct (tag_types b !! kv.1); [by destruct b|done]. }
  change (ServerHandler.init bv)
    with (ServerHandler.init_step
            (ServerHandler.init_step bv ("pwndbg-pc", "➡️")) ("pwndbg-bp", "🔴")).
  split; [|split; [|split; [|split; [|split]]]].
  - intros k v Hk. by do 2 apply Hstep_keep.
  - intros k Hpc Hbp. by rewrite !Hstep_other.
  - apply init_step_keeps. apply (init_step_registers bv ("pwndbg-pc", "➡️")).
  - apply (init_step_registers _ ("pwndbg-bp", "🔴")).
  - rewrite (Hstep_set _ ("pwndbg-bp", "🔴")) at 1.
    rewrite (Hstep_set bv ("pwndbg-pc", "➡️")) at 1. done.
  - apply init_idempotent.
Qed.

(** * More on the server life cycle *)

Lemma init_handle (bv : BinaryView) : handle (ServerHandler.init bv) = handle bv.
Proof.
  change (ServerHandler.init bv)
    with (ServerHandler.init_step
            (ServerHandler.init_step bv ("pwndbg-pc", "➡️")) ("pwndbg-bp", "🔴")).
  unfold ServerHandler.init_step.
  repeat (match goal with |- context [match ?o with Some _ => _ | None => _ end] =>
            destruct o end; cbn [create_tag_type set_tag_types handle fst snd]);
    done.
Qed.

(** X7: the life cycle of the server, from a state without one. A start
    that cannot bind raises [OSError] and leaves the globals as they were,
    with the view prepared by [init]. A start that binds makes a server
    bound to the view, serving the introspection procedures and the
    registered methods, no name twice, and logs one line. While it runs,
    a start on any view changes neither the server nor the log: the server
    stays bound to the first view. A stop removes it and keeps the log, and
    a start after the stop binds to the view given then. *)
Theorem server_life_cycle (bv bv2 : BinaryView) (g : Globals) :
  server g = None →
  start_server false bv g = (ServerHandler.init bv, g, Some OSError) ∧
  ∃ g1 srv,
    start_server true bv g = (ServerHandler.init bv, g1, None) ∧
    server g1 = Some srv ∧
    log g1 = log g ++ ["XML-RPC server listening on http://127.0.0.1:31337"] ∧
    srv_view srv = handle bv ∧ srv_serving srv = true ∧
    srv_functions srv = introspection_functions ++ to_register ∧
    NoDup (srv_functions srv) ∧
    (∀ port_free other,
       start_server port_free other g1 = (ServerHandler.init other, g1, None)) ∧
    ∃ g2 g3 srv3,
      stop_server bv g1 = (bv, g2) ∧ server g2 = None ∧ log g2 = log g1 ∧
      start_server true bv2 g2 = (ServerHandler.init bv2, g3, None) ∧
      server g3 = Some srv3 ∧ srv_view srv3 = handle bv2.
Proof.
  intros Hnone. unfold start_server at 1 2. rewrite Hnone.
  split; [done|]. eexists _, _. split; [done|].
  cbn [server log srv_view srv_serving srv_functions].
  split; [done|]. split; [done|]. split; [apply init_handle|].
  split; [done|]. split; [done|].
  split; [apply (bool_decide_unpack _); vm_compute; exact I|].
  split; [done|].
  eexists _, _, _. unfold stop_server, start_server. cbn [server log].
  split; [done|]. split; [done|]. split; [done|]. split; [done|].
  split; [done|]. cbn [srv_view]. apply init_handle.
Qed.

Lemma server_life_cycle_witness :
  server globals0 = None ∧
  start_server false empty_view globals0
  = (ServerHandler.init empty_view, globals0, Some OSError).
Proof.
  split; [reflexivity|].
  exact (proj1 (server_life_cycle empty_view empty_view globals0 eq_refl)).
Defined.

(** * More on the query layer *)



(** ** Equal starts and the order of the functions *)

(** [min] keeps the first of the least: every function before the one it
    answers starts later, and none after it starts earlier. *)
Lemma min_by_start_first (rest : list Function) (f0 : Function) :
  ∃ pre post,
    f0 :: rest = pre ++ min_by_start f0 rest :: post ∧
    Forall (λ g, start (min_by_start f0 rest) < start g) pre ∧
    Forall (λ g, start (min_by_start f0 rest) ≤ start g) post.
Proof.
  induction rest as [|h rest IH] using rev_ind.
  - exists [], []. by repeat split.
  - destruct IH as (pre & post & Heq & Hpre & Hpost).
    unfold min_by_start in *. rewrite fold_left_app. cbn [fold_left].
    set (m := fold_left _ rest f0) in *.
    destruct (Z.ltb_spec (start h) (start m)) as [Hlt|Hge].
    + exists (f0 :: rest), []. split; [done|]. split; [|done].
      rewrite Heq. apply Forall_app. split.
      * eapply Forall_impl; [exact Hpre|]. intros g Hg. cbn in Hg. lia.
      * constructor; [done|].
        eapply Forall_impl; [exact Hpost|]. intros g Hg. cbn in Hg. lia.
    + exists pre, (post ++ [h]). split; [|split; [done|]].
      * rewrite app_comm_cons, Heq. by rewrite <- app_assoc.
      * apply Forall_app. split; [done|]. by constructor.
Qed.

(** X9: of several functions that contain the address and have the same
    least start, [get_widest_func] answers the one that
    [get_functions_containing] lists first: the functions listed before
    its answer start strictly later, those after it not earlier. *)
Theorem get_widest_func_first_of_least (bv : BinaryView) (addr : Z) (f : Function) :
  get_widest_func bv addr = Some f →
  ∃ pre post,
    get_functions_containing bv addr = pre ++ f :: post ∧
    Forall (λ g, start f < start g) pre ∧
    Forall (λ g, start f ≤ start g) post.
Proof.
  unfold get_widest_func.
  destruct (get_functions_containing bv addr) as [|f0 rest]; [done|].
  intros [= <-]. apply min_by_start_first.
Qed.

(** Two functions with the start of F1: the first listed is answered. *)
Lemma get_widest_func_first_of_least_witness :
  let twin :=
    {| start := 0x1000; name := "twin"; symbol_full_name := "twin";
       address_ranges := [(0x1000, 0x1800)]; func_comments := ∅;
       return_type := OtherType "void"; parameter_vars := [] |} in
  let bv :=
    {| handle := 1; bv_start := 0; tag_types := ∅; tag_refs := []; next_tag := 0;
       functions := [F2; twin; F1]; bv_comments := ∅ |} in
  get_widest_func bv 0x1600 = Some twin ∧
  ∃ pre post, get_functions_containing bv 0x1600 = pre ++ twin :: post ∧
              Forall (λ g, start twin < start g) pre.
Proof.
  intros twin bv.
  assert (H : get_widest_func bv 0x1600 = Some twin) by reflexivity.
  split; [exact H|].
  destruct (get_widest_func_first_of_least bv 0x1600 twin H)
    as (pre & post & Heq & Hpre & _).
  exists pre, post. split; [exact Heq | exact Hpre].
Defined.

Lemma NoDup_fmap_eq {A B} (f : A → B) (l : list A) (x y : A) :
  NoDup (f <$> l) → x ∈ l → y ∈ l → f x = f y → x = y.
Proof.
  induction l as [|z l IH]; intros Hnd Hx Hy Hf.
  - by apply not_elem_of_nil in Hx.
  - rewrite fmap_cons in Hnd. apply NoDup_cons in Hnd as [Hz Hnd].
    apply elem_of_cons in Hx as [->|Hx], Hy as [->|Hy]; [done| | |by apply IH].
    + exfalso. apply Hz. rewrite Hf. by apply list_elem_of_fmap_2.
    + exfalso. apply Hz. rewrite <- Hf. by apply list_elem_of_fmap_2.
Qed.

Lemma sorted_start_perm (l l' : list Function) :
  l' ≡ₚ l → NoDup (start <$> l) → sorted start l' = sorted start l.
Proof.
  intros Hperm Hnd.
  apply (StronglySorted_unique_strong (key_le start)).
  - intros x1 x2 Hx1 Hx2 H12 H21. unfold key_le in *.
    rewrite sorted_perm in Hx1, Hx2. rewrite Hperm in Hx1.
    apply (NoDup_fmap_eq start l); [done..|lia].
  - apply sorted_sorted.
  - apply sorted_sorted.
  - by rewrite !sorted_perm.
Qed.

Lemma get_widest_func_perm (bv bv' : BinaryView) (addr : Z) :
  get_functions_containing bv' addr ≡ₚ get_functions_containing bv addr →
  NoDup (start <$> get_functions_containing bv addr) →
  get_widest_func bv' addr = get_widest_func bv addr.
Proof.
  unfold get_widest_func. intros Hperm Hnd.
  destruct (get_functions_containing bv addr) as [|f0 rest] eqn:Hl.
  - apply Permutation_nil_r in Hperm. by rewrite Hperm.
  - destruct (get_functions_containing bv' addr) as [|f0' rest'] eqn:Hl'.
    { symmetry in Hperm. by apply Permutation_nil_r in Hperm. }
    f_equal.
    pose proof (min_by_start_elem rest f0) as Hm.
    pose proof (min_by_start_elem rest' f0') as Hm'.
    assert (Hm2 : min_by_start f0 rest ∈ f0' :: rest') by by rewrite Hperm.
    assert (Hm2' : min_by_start f0' rest' ∈ f0 :: rest) by by rewrite <- Hperm.
    pose proof (min_by_start_least rest f0 _ Hm2').
    pose proof (min_by_start_least rest' f0' _ Hm2).
    apply (NoDup_fmap_eq start (f0 :: rest)); [done..|lia].
Qed.

(** X10: where the functions that contain the address have distinct
    starts, the answers of [get_func_info] and [get_comments] do not depend
    on the order in which the view lists its functions. *)
Theorem queries_independent_of_order (bv bv' : BinaryView) (addr : Z) :
  functions bv' ≡ₚ functions bv →
  bv_comments bv' = bv_comments bv →
  NoDup (start <$> get_functions_containing bv addr) →
  ServerHandler.get_func_info bv' addr = ServerHandler.get_func_info bv addr ∧
  ServerHandler.get_comments bv' addr = ServerHandler.get_comments bv addr.
Proof.
  intros Hperm Hcomments Hnd.
  assert (Hl : get_functions_containing bv' addr ≡ₚ get_functions_containing bv addr).
  { unfold get_functions_containing. by rewrite Hperm. }
  split.
  - unfold ServerHandler.get_func_info. by rewrite (get_widest_func_perm bv bv').
  - unfold ServerHandler.get_comments, bv_get_comment_at.
    by rewrite (sorted_start_perm _ _ Hl Hnd), Hcomments.
Qed.

Lemma queries_independent_of_order_witness :
  let view (fs : list Function) :=
    {| handle := 1; bv_start := 0; tag_types := ∅; tag_refs := []; next_tag := 0;
       functions := fs; bv_comments := ∅ |} in
  ServerHandler.get_func_info (view [F2; F1]) 0x1600
  = ServerHandler.get_func_info (view [F1; F2]) 0x1600.
Proof.
  intros view.
  refine (proj1 (queries_independent_of_order (view [F1; F2]) (view [F2; F1]) 0x1600
                   _ eq_refl _)).
  - apply Permutation_swap.
  - apply (bool_decide_unpack _). vm_compute. exact I.
Defined.

(** ** Data variables *)

Lemma hex_value_digit (d : Z) : 0 ≤ d < 16 → hex_value (hex_digit d) = Some d.
Proof.
  intros Hd.
  assert (Hcases : d = 0 ∨ d = 1 ∨ d = 2 ∨ d = 3 ∨ d = 4 ∨ d = 5 ∨ d = 6 ∨ d = 7 ∨
                   d = 8 ∨ d = 9 ∨ d = 10 ∨ d = 11 ∨ d = 12 ∨ d = 13 ∨ d = 14 ∨
                   d = 15) by lia.
  repeat (destruct Hcases as [->|Hcases]; [reflexivity|]). by subst.
Qed.

Lemma parse_hex_from_app (s1 s2 : string) (acc : Z) :
  parse_hex_from acc (s1 +:+ s2) = parse_hex_from acc s1 ≫= λ a, parse_hex_from a s2.
Proof.
  revert acc. induction s1 as [|c s1 IH]; intros acc; [done|].
  change (String c s1 +:+ s2) with (String c (s1 +:+ s2)).
  cbn [parse_hex_from]. destruct (hex_value c); [apply IH|done].
Qed.

Lemma parse_hex_digits (fuel : nat) (n : Z) :
  0 ≤ n < 16 ^ Z.of_nat fuel → parse_hex_from 0 (hex_digits fuel n) = Some n.
Proof.
  revert n. induction fuel as [|fuel IH]; intros n Hn.
  - change (16 ^ Z.of_nat 0) with 1 in Hn. by replace n with 0 by lia.
  - cbn [hex_digits]. destruct (Z.ltb_spec n 16) as [Hlt|Hge].
    + cbn [parse_hex_from]. rewrite hex_value_digit by lia. f_equal; lia.
    + rewrite parse_hex_from_app, IH.
      * cbn [mbind option_bind parse_hex_from].
        rewrite hex_value_digit by (apply Z.mod_pos_bound; lia).
        f_equal; pose proof (Z.div_mod n 16); lia.
      * rewrite Nat2Z.inj_succ, Z.pow_succ_r in Hn by lia.
        split; [apply Z.div_pos; lia|].
        apply Z.div_lt_upper_bound; lia.
Qed.

Lemma hex_fuel_enough (n : Z) : 0 ≤ n → n < 16 ^ Z.of_nat (S (Z.to_nat (Z.log2 n))).
Proof.
  intros Hn. rewrite Nat2Z.inj_succ, Z2Nat.id by apply Z.log2_nonneg.
  destruct (decide (n = 0)) as [->|Hne]; [done|].
  pose proof (Z.log2_spec n ltac:(lia)) as [_ Hlt].
  eapply Z.lt_le_trans; [exact Hlt|].
  apply Z.pow_le_mono_l. pose proof (Z.log2_nonneg n). lia.
Qed.

Lemma parse_x_of_hex (s : string) (n : Z) :
  parse_hex_from 0 s = Some n → parse_x s = Some n.
Proof.
  destruct s as [|c s]; [done|]. cbn [parse_x].
  by destruct (Ascii.eqb_spec c "-") as [->|Hne].
Qed.

(** Reading what [format(n, "x")] writes gives [n] back. *)
Lemma parse_format_x (n : Z) : parse_x (format_x n) = Some n.
Proof.
  unfold format_x. destruct (Z.ltb_spec n 0) as [Hneg|Hpos].
  - change ("-" +:+ ?s) with (String "-" s). cbn [parse_x].
    rewrite parse_hex_digits.
    + cbn. f_equal; lia.
    + split; [lia|]. apply hex_fuel_enough. lia.
  - apply parse_x_of_hex, parse_hex_digits. split; [done|].
    by apply hex_fuel_enough.
Qed.

Lemma append_inj_l (p s1 s2 : string) : p +:+ s1 = p +:+ s2 → s1 = s2.
Proof.
  induction p as [|c p IH]; [done|].
  change (String c p +:+ ?s) with (String c (p +:+ s)). intros [= H]. by apply IH.
Qed.

(** X11: [get_data_info] answers [None] exactly where there is no data
    variable; otherwise it answers the address of the variable with the
    full name of its symbol, or, without a symbol, its name if that is not
    empty, or else "data_" and the address in base 16. Without a symbol the
    name answered is never empty, and the names made from two addresses are
    the same only for the same address. *)
Theorem get_data_info_spec (get_data_var_at : Z → option DataVariable) (addr : Z) :
  (ServerHandler.get_data_info get_data_var_at addr = None ↔
     get_data_var_at addr = None) ∧
  (∀ dv, get_data_var_at addr = Some dv →
     ∃ name, ServerHandler.get_data_info get_data_var_at addr
             = Some (name, dv_address dv) ∧
             (∀ s, dv_symbol dv = Some s → name = s) ∧
             (dv_symbol dv = None →
                name ≠ "" ∧
                (∀ n, dv_name dv = Some n → n ≠ "" → name = n) ∧
                (dv_name dv = None ∨ dv_name dv = Some "" →
                   name = "data_" +:+ format_x (dv_address dv)))) ∧
  (∀ a1 a2, "data_" +:+ format_x a1 = "data_" +:+ format_x a2 → a1 = a2).
Proof.
  unfold ServerHandler.get_data_info. split; [|split].
  - destruct (get_data_var_at addr) as [dv|]; [|done].
    split; [|done]. by destruct (dv_symbol dv), (dv_name dv).
  - intros dv ->. destruct (dv_symbol dv) as [s|].
    + exists s. split; [done|]. split; [by intros ? [= ->]|done].
    + eexists. split; [done|]. split; [done|]. intros _.
      destruct (dv_name dv) as [n|].
      * case_bool_decide as Hn.
        -- split; [done|]. split; [by intros ? [= <-] ?|done].
        -- split; [done|]. split; [by intros ? [= <-] ?|].
           intros [?|[= ?]]; done.
      * split; [done|]. split; [done|done].
  - intros a1 a2 Heq%append_inj_l.
    pose proof (parse_format_x a1) as H1. rewrite Heq, parse_format_x in H1.
    by injection H1.
Qed.

(** The names made for some addresses. *)
Example format_x_examples :
  format_x 0 = "0" ∧ format_x 255 = "ff" ∧ format_x 0x4010a0 = "4010a0" ∧
  format_x (-255) = "-ff" ∧ format_x 16 = "10" ∧
  ServerHandler.get_data_info
    (λ a, if a =? 0x4010a0
          then Some {| dv_address := a; dv_name := None; dv_symbol := None |}
          else None) 0x4010a0
  = Some ("data_4010a0", 0x4010a0).
Proof. repeat split. Qed.

(** ** Decompiled lines *)

Lemma fold_left_snoc_map {A B} (g : A → B) (l : list A) (acc : list B) :
  fold_left (λ ret x, ret ++ [g x]) l acc = acc ++ (g <$> l).
Proof.
  revert acc. induction l as [|x l IH]; intros acc; cbn [fold_left].
  - by rewrite app_nil_r.
  - rewrite IH, fmap_cons. by rewrite <- app_assoc.
Qed.

(** X12: [decompile_func] answers exactly where [get_func_info] answers
    and the widest function has its decompiled form; its answer then has
    one entry per line, in the order of the lines, with the address of the
    line and the text and kind of every token of the line, in their
    order. *)
Theorem decompile_func_spec
    (hlil_if_available : Function → option HighLevelILFunction)
    (bv : BinaryView) (addr : Z) :
  (ServerHandler.get_func_info bv addr = None →
     ServerHandler.decompile_func hlil_if_available bv addr = None) ∧
  (∀ f, get_widest_func bv addr = Some f → hlil_if_available f = None →
     ServerHandler.decompile_func hlil_if_available bv addr = None) ∧
  (∀ f h, get_widest_func bv addr = Some f → hlil_if_available f = Some h →
     ∃ ret,
       ServerHandler.decompile_func hlil_if_available bv addr = Some ret ∧
       length ret = length (root_lines h) ∧
       ∀ i line, root_lines h !! i = Some line →
         ∃ toks, ret !! i = Some (line_address line, toks) ∧
                 toks.*1 = tok_text <$> line_tokens line ∧
                 toks.*2 = tok_type_name <$> line_tokens line).
Proof.
  unfold ServerHandler.decompile_func, ServerHandler.get_func_info.
  split; [|split].
  - by destruct (get_widest_func bv addr).
  - by intros f -> ->.
  - intros f h -> ->. eexists. split; [done|].
    rewrite fold_left_snoc_map, app_nil_l. split; [by rewrite length_fmap|].
    intros i line Hline. eexists. rewrite list_lookup_fmap, Hline.
    split; [done|]. rewrite <- !list_fmap_compose. split; by apply list_fmap_ext.
Qed.

(** * The debugger commands *)

Lemma magic_vars_loop (regs : commands.Regs) (l : list string) (m : gmap string Z)
    (r : string) :
  fold_left
    (λ (m : gmap string Z) r,
       match commands.regs_getitem regs r with
       | Some v => <[r := v]> m
       | None => m
       end) l m !! r
  = if decide (r ∈ l)
    then match commands.regs_getitem regs r with Some v => Some v | None => m !! r end
    else m !! r.
Proof.
  revert m. induction l as [|r' l IH]; intros m; cbn [fold_left].
  - rewrite decide_False; [done | apply not_elem_of_nil].
  - rewrite IH. destruct (decide (r = r')) as [<-|Hne].
    + rewrite (decide_True (P := r ∈ r :: l)) by left.
      destruct (commands.regs_getitem regs r) as [v|] eqn:Hr.
      * case_decide; [done | by rewrite lookup_insert_eq].
      * by case_decide.
    + assert (Hm : (match commands.regs_getitem regs r' with
                    | Some v => <[r' := v]> m
                    | None => m
                    end) !! r = m !! r).
      { destruct (commands.regs_getitem regs r'); [|done].
        by rewrite lookup_insert_ne. }
      rewrite Hm. destruct (decide (r ∈ l)) as [Hin|Hin].
      * rewrite decide_True; [done | by right].
      * rewrite decide_False; [done|]. rewrite elem_of_cons. tauto.
Qed.

(** X13: the variables [bn_eval] passes to Binary Ninja: "piebase" is
    always the base address of the binary, also when a register has that
    name; every other current register that has a value is there with its
    value; a register without a value and a name that is no current
    register are not there. *)
Theorem magic_vars_spec (regs : commands.Regs) (binary_base_addr : Z) (r : string) :
  commands.magic_vars regs binary_base_addr !! r
  = if decide (r = "piebase") then Some binary_base_addr
    else if decide (r ∈ commands.current regs) then commands.regs_getitem regs r
    else None.
Proof.
  unfold commands.magic_vars. destruct (decide (r = "piebase")) as [->|Hne].
  - by rewrite lookup_insert_eq.
  - rewrite lookup_insert_ne by done. rewrite magic_vars_loop, lookup_empty.
    case_decide; [|done]. by destruct (commands.regs_getitem regs r).
Qed.

(** Registers rip and rsp with values, fs_base without, and a register
    called piebase. *)
Example magic_vars_example :
  let regs :=
    {| commands.current := ["rip"; "rsp"; "fs_base"; "piebase"];
       commands.reg_values := {[ "rip" := 0x401000; "rsp" := 0x7ffc0000;
                                 "piebase" := 1; "rax" := 7 ]} |} in
  let m := commands.magic_vars regs 0x400000 in
  m !! "rip" = Some 0x401000 ∧ m !! "fs_base" = None ∧ m !! "rax" = None ∧
  m !! "piebase" = Some 0x400000.
Proof. cbv zeta. repeat split; vm_compute; reflexivity. Qed.

(** * The handlers of hooks.py, event by event *)

Lemma sorted_same_key {A} (key : A → Z) (k : Z) (l : list A) :
  Forall (λ y, key y = k) l → sorted key l = l.
Proof.
  intros Hall. rewrite (sorted_least_first key k).
  - rewrite (filter_all (λ y, key y = k)) by by apply Forall_forall.
    replace (filter (λ y, key y ≠ k) l) with (@nil A); [by rewrite app_nil_r|].
    symmetry. induction Hall as [|y l Hy _ IH]; [done|].
    rewrite filter_cons_False; [done|]. intros Hn. by apply Hn.
  - eapply Forall_impl; [exact Hall|]. intros y Hy. cbn in Hy. lia.
Qed.

Section HooksOrder.

Variables typeinfo_update arch_update reset_kconfig abi_update update_min_addr
  reset_remote_files clear_temp_breaks update_length
  : events.State → events.State * bool.
Variables default_priority CACHE_CLEAR : Z.

Local Abbreviation features :=
  (hooks_features typeinfo_update arch_update reset_kconfig abi_update
     update_min_addr reset_remote_files clear_temp_breaks update_length
     default_priority).

Local Abbreviation bus :=
  (hooks_bus typeinfo_update arch_update reset_kconfig abi_update
     update_min_addr reset_remote_files clear_temp_breaks update_length
     default_priority CACHE_CLEAR).

Lemma hooks_features_above :
  CACHE_CLEAR < default_priority → Forall (feature_above CACHE_CLEAR) (features ++ []).
Proof.
  intros Hlt. repeat (constructor; [split; [exact I | exact Hlt]|]). constructor.
Qed.

Lemma hooks_handlers_of (e : events.Event) :
  CACHE_CLEAR < default_priority →
  events.handlers_of bus e
  = (events.ClearCaches <$> hooks.groups_of e)
    ++ (events.reg_handler <$> filter (λ r, events.reg_event r = e) features).
Proof.
  intros Hlt. unfold hooks_bus, hooks.module_body.
  fold features.
  rewrite <- (app_nil_r (cache.connect_clear_caching_events _ _ _)).
  rewrite handlers_of_connected by by apply hooks_features_above.
  rewrite app_nil_r. f_equal. f_equal.
  apply (sorted_same_key _ default_priority).
  apply Forall_forall. intros r [_ Hr]%list_elem_of_filter. revert r Hr.
  apply Forall_forall. repeat constructor.
Qed.

(** X14: on the event bus as modelled, with the priority of the cache
    clearing below the one of the other handlers, the handlers that
    [hooks.py] registers run in this order: on a stop, the clearing of
    "stop", [update_typeinfo], [update_arch], [on_stop]; on a start, the
    clearing of "start", [update_typeinfo], [update_arch], [on_start]; on a
    new object file, the clearing of "objfile", [update_typeinfo],
    [update_arch], [reset_config]; on an exit, the clearing of "exit" and
    [on_exit]; on a change of memory or registers, the clearing of "stop"
    and of "cont"; on the other events, the clearing of their group. *)
Theorem hooks_dispatch_order :
  CACHE_CLEAR < default_priority →
  events.handlers_of bus events.stop
  = [events.ClearCaches "stop"; hooks.update_typeinfo typeinfo_update;
     hooks.update_arch arch_update; hooks.on_stop update_length] ∧
  events.handlers_of bus events.start
  = [events.ClearCaches "start"; hooks.update_typeinfo typeinfo_update;
     hooks.update_arch arch_update; hooks.on_start abi_update update_min_addr] ∧
  events.handlers_of bus events.new_objfile
  = [events.ClearCaches "objfile"; hooks.update_typeinfo typeinfo_update;
     hooks.update_arch arch_update; hooks.reset_config reset_kconfig] ∧
  events.handlers_of bus events.exit
  = [events.ClearCaches "exit"; hooks.on_exit reset_remote_files clear_temp_breaks] ∧
  events.handlers_of bus events.mem_changed
  = [events.ClearCaches "stop"; events.ClearCaches "cont"] ∧
  events.handlers_of bus events.reg_changed
  = [events.ClearCaches "stop"; events.ClearCaches "cont"] ∧
  events.handlers_of bus events.cont = [events.ClearCaches "cont"] ∧
  events.handlers_of bus events.thread = [events.ClearCaches "thread"] ∧
  events.handlers_of bus events.before_prompt = [events.ClearCaches "prompt"].
Proof.
  intros Hlt. repeat split; by rewrite hooks_handlers_of.
Qed.

End HooksOrder.

Lemma hooks_dispatch_order_witness :
  events.handlers_of (hooks_bus quiet quiet quiet quiet quiet quiet quiet quiet 1 0)
    events.start
  = [events.ClearCaches "start"; hooks.update_typeinfo quiet; hooks.update_arch quiet;
     hooks.on_start quiet quiet].
Proof.
  exact (proj1 (proj2 (hooks_dispatch_order quiet quiet quiet quiet quiet quiet quiet
                         quiet 1 0 eq_refl))).
Defined.
